(** * La Fábrica de Cuentos: the storybook backend (backend/main.py)

    A shallow embedding of the module's start-up, of the two endpoints
    [generate_story] and [generate_book], of the image helper
    [generate_image_data] and of the layout function [create_pdf_book],
    together with the properties the specification states about them.

    Conventions of the model.
    - Python [str] is [string]; [bytes] is a list of bytes.
    - What the program calls and does not define is a field of a
      [World]: the OpenAI client (its constructor and its two services),
      [base64.b64decode], and reportlab's [ImageReader] and [Paragraph],
      each of which may raise.  Every call made on the client's services
      is recorded in a log, so that statements such as "no external call
      is made" can be read off the result.
    - reportlab's canvas is a recorder of drawing commands: [showPage]
      closes the current page, [save] writes the closed pages into the
      buffer.  Page geometry and colours are floating point in the source
      and are kept symbolic.
    - A raised exception is the [inl] of a sum.  The calls of [print] are
      left out. *)

From Stdlib Require Import String Ascii.
From stdpp Require Import base list strings gmap.

(** ** Python values and exceptions *)

Definition bytes := list Byte.byte.

(** Exceptions other than [HTTPException] that the code can meet. *)
Inductive py_error : Type :=
| APIError (message : string)        (* raised by the OpenAI client *)
| BinasciiError (message : string)   (* raised by base64.b64decode *)
| IndexError                         (* list index out of range *)
| OpenAIError (message : string)     (* raised by the client's constructor *)
| OSError (message : string)         (* raised by ImageReader *)
| ValueError (message : string).     (* raised by Paragraph *)

(** [str(e)] *)
Definition str (e : py_error) : string :=
  match e with
  | APIError m => m
  | BinasciiError m => m
  | IndexError => "list index out of range"
  | OpenAIError m => m
  | OSError m => m
  | ValueError m => m
  end.

Record HTTPException : Type := mkHTTPException {
  status_code : nat;
  detail : string
}.

(** What a [try] body can raise: the two [except] clauses of
    [generate_book] tell them apart. *)
Inductive exn : Type :=
| Http (e : HTTPException)
| Py (e : py_error).

(** [l[i]] on a Python list, for a non-negative [i]. *)
Definition getitem {A : Type} (l : list A) (i : nat) : py_error + A :=
  match l !! i with
  | Some x => inr x
  | None => inl IndexError
  end.

(** ** The external collaborators *)

Definition dquote : string := String (ascii_of_nat 34) EmptyString.
Definition newline : string := String (ascii_of_nat 10) EmptyString.

(** The keyword arguments of [client.images.generate]. *)
Record images_request : Type := mkImagesRequest {
  img_model : string;
  img_prompt : string;
  img_size : string;
  img_quality : string;
  img_n : nat;
  img_response_format : string
}.

Record Image : Type := mkImage { b64_json : string }.
Record ImagesResponse : Type := mkImagesResponse { data : list Image }.

Record chat_message : Type := mkMessage { role : string; content : string }.

(** The keyword arguments of [client.chat.completions.create]; the
    temperature is kept as its literal. *)
Record chat_request : Type := mkChatRequest {
  chat_model : string;
  messages : list chat_message;
  temperature : string;
  response_format_type : string
}.

Record Choice : Type := mkChoice { message : chat_message }.
Record ChatCompletion : Type := mkChatCompletion { choices : list Choice }.

(** A call made on the OpenAI client. *)
Inductive ext_call : Type :=
| ChatCompletionsCreate (r : chat_request)
| ImagesGenerate (r : images_request).

Record ParagraphStyle : Type := mkParagraphStyle {
  style_name : string;
  fontName : string;
  fontSize : nat;
  leading : nat;
  firstLineIndent : nat;
  spaceAfter : nat
}.

Definition text_style : ParagraphStyle :=
  {| style_name := "normal"; fontName := "Helvetica"; fontSize := 14;
     leading := 20; firstLineIndent := 20; spaceAfter := 12 |}.

(** The world outside the program.
    - [AsyncOpenAI api_key] is the client's constructor, called with the
      key the module read.
    - [images_generate i r] is the outcome of the image call issued by the
      [i]-th task of a fan-out: two calls with the same prompt need not
      get the same answer.
    - [ImageReader payload] is reportlab's reader of an image file: the
      picture it decodes, or the error it raises on bytes that are no
      image.
    - [Paragraph text style] is reportlab's paragraph: the text as its
      markup parser reads it, or the error it raises on malformed markup. *)
Record World : Type := mkWorld {
  AsyncOpenAI : option string -> py_error + unit;
  chat_completions_create : chat_request -> py_error + ChatCompletion;
  images_generate : nat -> images_request -> py_error + ImagesResponse;
  b64decode : string -> py_error + bytes;
  ImageReader : bytes -> py_error + bytes;
  Paragraph : string -> ParagraphStyle -> py_error + string
}.

(** Sequencing inside a [try] body. *)
Definition and_then {E A B} (r : E + A) (k : A -> E + B) : E + B :=
  match r with
  | inr a => k a
  | inl e => inl e
  end.

Declare Scope try_scope.
Delimit Scope try_scope with try.
Notation "x <- r ;; k" := (and_then r (fun x => k))
  (at level 100, r at next level, right associativity) : try_scope.


(** ** The canvas *)

Inductive color : Type :=
| RGBA_white_09      (* setFillColorRGB(1, 1, 1, 0.9) *)
| cream_color.       (* Color(0.99, 0.98, 0.88) *)

(** The drawing commands the layout uses.  Images and rectangles always
    cover the whole page ([0, 0, p_width, p_height]). *)
Inductive draw_op : Type :=
| DrawImage (image : bytes)                 (* a picture read by ImageReader;
                                               preserveAspectRatio, anchor 'c' *)
| SetFont (name : string) (size : nat)
| SetFillColor (c : color)
| DrawCentredString (text : string)         (* at (p_width / 2, p_height / 4) *)
| Rect                                      (* fill=1, stroke=0 *)
| DrawParagraph (text : string) (style : ParagraphStyle).
                                            (* a text read by Paragraph;
                                               wrapOn (p_width - 100, p_height - 100),
                                               drawOn (50, p_height - 100) *)

Definition page := list draw_op.
Definition document := list page.

(** [buffer] is the [BytesIO] the canvas was opened on: [None] while
    nothing has been written to it.  [pages] are the pages closed so far,
    [code] the commands of the page being drawn. *)
Record Canvas : Type := mkCanvas {
  buffer : option document;
  pages : list page;
  code : list draw_op
}.

Definition new_canvas : Canvas :=
  {| buffer := None; pages := []; code := [] |}.

(** A computation on the canvas that may raise. *)
Definition Draw (A : Type) : Type := Canvas -> (py_error + A) * Canvas.

Definition ret {A} (a : A) : Draw A := fun c => (inr a, c).
Definition bind {A B} (m : Draw A) (k : A -> Draw B) : Draw B :=
  fun c => match m c with
           | (inr a, c') => k a c'
           | (inl e, c') => (inl e, c')
           end.
Definition lift {A} (r : py_error + A) : Draw A := fun c => (r, c).

Declare Scope draw_scope.
Delimit Scope draw_scope with draw.
Notation "x <- m ;; k" := (bind m (fun x => k))
  (at level 100, m at next level, right associativity) : draw_scope.
Notation "m ;; k" := (bind m (fun _ => k))
  (at level 100, right associativity) : draw_scope.

Definition emit (op : draw_op) : Draw unit :=
  fun c => (inr tt, {| buffer := buffer c; pages := pages c; code := code c ++ [op] |}).

(** [c.drawImage], on a picture that [ImageReader] has read. *)
Definition drawImage (image : bytes) : Draw unit := emit (DrawImage image).
Definition setFont (name : string) (size : nat) : Draw unit := emit (SetFont name size).
Definition setFillColor (col : color) : Draw unit := emit (SetFillColor col).
Definition drawCentredString (text : string) : Draw unit := emit (DrawCentredString text).
Definition rect : Draw unit := emit Rect.
(** [p.wrapOn] and [p.drawOn], on a text that [Paragraph] has read. *)
Definition drawParagraph (text : string) (style : ParagraphStyle) : Draw unit :=
  emit (DrawParagraph text style).

Definition showPage : Draw unit :=
  fun c => (inr tt, {| buffer := buffer c; pages := pages c ++ [code c]; code := [] |}).

(** [Canvas.save]: a page still open is closed first, then the document
    is written to the buffer. *)
Definition save : Draw unit :=
  fun c =>
    let closed := match code c with [] => pages c | _ => pages c ++ [code c] end in
    (inr tt, {| buffer := Some closed; pages := closed; code := [] |}).

(** [buffer.seek(0); return buffer]: what the caller reads from it. *)
Definition read_buffer : Draw document :=
  fun c => (inr (default [] (buffer c)), c).

(** ** create_pdf_book *)

(** The body of [for i, paragraph_text in enumerate(paragraphs)],
    entered with the counter at [i]. *)
Fixpoint for_paragraphs (w : World) (i : nat) (paragraphs : list string)
    (image_data : list bytes) : Draw unit :=
  match paragraphs with
  | [] => ret tt
  | paragraph_text :: rest =>
      (* Text Page *)
      (setFillColor cream_color ;;
       rect ;;
       p <- lift (Paragraph w paragraph_text text_style) ;;
       drawParagraph p text_style ;;
       showPage ;;
       (* Illustration Page *)
       payload <- lift (getitem image_data (i + 1)) ;;
       scene_image <- lift (ImageReader w payload) ;;
       drawImage scene_image ;;
       showPage ;;
       for_paragraphs w (S i) rest image_data)%draw
  end.

Definition create_pdf_book_body (w : World) (title : string) (paragraphs : list string)
    (image_data : list bytes) : Draw document :=
  (* Page 1: Cover *)
  (payload <- lift (getitem image_data 0) ;;
   cover_image <- lift (ImageReader w payload) ;;
   drawImage cover_image ;;
   setFont "Helvetica-Bold" 36 ;;
   setFillColor RGBA_white_09 ;;
   drawCentredString title ;;
   showPage ;;
   (* Subsequent Pages *)
   for_paragraphs w 0 paragraphs image_data ;;
   save ;;
   read_buffer)%draw.

(** The function as called: a fresh buffer and canvas.  The second
    component is the canvas (with its buffer) as the call leaves it. *)
Definition create_pdf_book_run (w : World) (title : string) (paragraphs : list string)
    (image_data : list bytes) : (py_error + document) * Canvas :=
  create_pdf_book_body w title paragraphs image_data new_canvas.

Definition create_pdf_book (w : World) (title : string) (paragraphs : list string)
    (image_data : list bytes) : py_error + document :=
  fst (create_pdf_book_run w title paragraphs image_data).

(** The three kinds of page of a book, for a picture and a text as the
    library read them. *)
Definition cover_page (title : string) (image : bytes) : page :=
  [DrawImage image; SetFont "Helvetica-Bold" 36; SetFillColor RGBA_white_09;
   DrawCentredString title].
Definition text_page (paragraph_text : string) : page :=
  [SetFillColor cream_color; Rect; DrawParagraph paragraph_text text_style].
Definition illustration_page (image : bytes) : page :=
  [DrawImage image].


(** ** Prompts *)

Definition ART_STYLE_PROMPT : string :=
  "
**Art Style:** A high-quality digital painting in the style of a classic children's book with a gentle, pictorial, and artisanal watercolor finish. The lighting must be warm and soft, creating a cozy and nostalgic atmosphere. All images must be in a 4:3 landscape aspect ratio.

**Character Descriptions (Mandatory):**
*   **Pepito:** A 3-year-old boy, small in stature, with messy dark brown hair, big brown eyes, and rosy cheeks. He is always wearing the exact same outfit: a sweater with horizontal red and orange stripes, and blue shorts. He has fair skin.
*   **Pepón:** A 5-year-old boy, taller and sturdier than his brother, with neat dark brown hair. He is always wearing the exact same outfit: a blue and yellow polo shirt (remera tipo chomba) and dark long pants. He has the same fair skin as his brother.

**Consistency Rule:** Pepito and Pepón must look identical in every single image, with the exact same face, hair, and clothing as described.
".

Definition system_prompt : string :=
  "
    You are a creative storyteller for children. Your task is to write a short, magical story in Spanish.

    **Rules:**
    1. The story must be exactly 5 paragraphs long.
    2. The language must be Argentinian Spanish. Use local vocabulary and phrasing naturally (e.g., " +:+ dquote +:+ "vos" +:+ dquote +:+ " instead of " +:+ dquote +:+ "tú" +:+ dquote +:+ ", words like " +:+ dquote +:+ "pileta" +:+ dquote +:+ ", " +:+ dquote +:+ "vereda" +:+ dquote +:+ ", " +:+ dquote +:+ "barrilete" +:+ dquote +:+ " when appropriate).
    3. The main characters are two brothers, Pepito (3 years old) and Pepón (5 years old). The story must be about them.
    4. **Crucial Safety Rule:** The story can have a small, easily resolved problem or moment of tension, but it is absolutely forbidden for any character to get hurt, be in real danger, or experience significant fear. The tone must always be warm, safe, and reassuring.
    5. The story must have a clear title.
    6. Your output must be a JSON object with two keys: " +:+ dquote +:+ "title" +:+ dquote +:+ " (a string) and " +:+ dquote +:+ "paragraphs" +:+ dquote +:+ " (an array of 5 strings). Do not add any extra text or explanations outside of the JSON object.
    ".

Definition cover_prompt : string :=
  "A beautiful and attractive cover scene with the two protagonists, Pepito and Pepón, in a pleasant and safe natural landscape like a sunny meadow or a gentle forest. No text.".

(** ** generate_image_data *)

(** A coroutine with one suspension point: it issues [awaits] and is
    resumed with the outcome of that call. *)
Record Task (A : Type) : Type := mkTask {
  awaits : images_request;
  resume : py_error + ImagesResponse -> HTTPException + A
}.
Arguments mkTask {A} _ _.
Arguments awaits {A} _.
Arguments resume {A} _ _.

Definition full_prompt (prompt : string) : string :=
  ART_STYLE_PROMPT +:+ newline +:+ newline +:+ "**Scene:** " +:+ prompt.

Definition generate_image_data (w : World) (prompt : string) : Task bytes :=
  mkTask
    {| img_model := "dall-e-3";
       img_prompt := full_prompt prompt;
       img_size := "1024x768";
       img_quality := "standard";
       img_n := 1;
       img_response_format := "b64_json" |}
    (fun outcome =>
       match (response <- outcome ;;
              first <- getitem (data response) 0 ;;
              b64decode w (b64_json first))%try with
       | inr image => inr image
       | inl e =>
           inl (mkHTTPException 500
                  ("Failed to generate image for prompt: " +:+ prompt))
       end).

(** ** asyncio.gather *)

Inductive outcome (A : Type) : Type :=
| Returned (a : A)
| Raised (e : HTTPException)
| Pending.                  (* the awaited calls never all completed *)
Arguments Returned {A} _.
Arguments Raised {A} _.
Arguments Pending {A}.

(** The state of a [gather]: one result slot per task, or the first
    exception, which is propagated at once. *)
Inductive gathering (A : Type) : Type :=
| Running (slots : list (option A))
| Failed (e : HTTPException).
Arguments Running {A} _.
Arguments Failed {A} _.

(** What the call of task [i] makes of the task: it is resumed with
    the outcome of its call, and returns or raises. *)
Definition settle {A} (w : World) (i : nat) (t : Task A) : HTTPException + A :=
  resume t (images_generate w i (awaits t)).

(** The call of task [i] completes. *)
Definition complete {A} (w : World) (tasks : list (Task A))
    (st : gathering A) (i : nat) : gathering A :=
  match st with
  | Failed e => Failed e
  | Running slots =>
      match tasks !! i with
      | None => Running slots
      | Some t =>
          match settle w i t with
          | inr v => Running (<[i := Some v]> slots)
          | inl e => Failed e
          end
      end
  end.

Fixpoint collect {A} (slots : list (option A)) : option (list A) :=
  match slots with
  | [] => Some []
  | Some v :: rest => option_map (cons v) (collect rest)
  | None :: rest => None
  end.

(** [await asyncio.gather] on the tasks, the calls completing in the order
    [sched] (a list of task indices).  All tasks are started, each up to
    its call, before any completion is seen: the first component is the
    list of the calls issued. *)
Definition gather {A} (w : World) (sched : list nat) (tasks : list (Task A))
  : list ext_call * outcome (list A) :=
  (map (fun t => ImagesGenerate (awaits t)) tasks,
   match foldl (complete w tasks) (Running (replicate (length tasks) None)) sched with
   | Failed e => Raised e
   | Running slots =>
       match collect slots with
       | Some results => Returned results
       | None => Pending
       end
   end).

(** ** Start-up *)

(** [os.getenv] on the environment of the process. *)
Definition getenv (environ : gmap string string) (name : string) : option string :=
  environ !! name.

(** Lines 19 to 22, run when the module is imported: the key is read and
    the client is built with it.  The value is the module's [api_key],
    when the import goes through. *)
Definition import_main (w : World) (environ : gmap string string)
  : py_error + option string :=
  let api_key := getenv environ "OPENAI_API_KEY" in
  (client <- AsyncOpenAI w api_key ;;
   inr api_key)%try.

(** ** The endpoints *)

Record StoryRequest : Type := mkStoryRequest { theme : string }.
Record BookRequest : Type := mkBookRequest { title : string; paragraphs : list string }.

Record StreamingResponse : Type := mkStreamingResponse {
  body : document;
  media_type : string;
  headers : list (string * string)
}.

(** [not api_key], for the value [os.getenv] returned at start-up. *)
Definition not_configured (api_key : option string) : bool :=
  match api_key with
  | None => true
  | Some k => bool_decide (k = EmptyString)
  end.

Definition key_error : HTTPException :=
  mkHTTPException 500 "OPENAI_API_KEY is not configured on the server.".

Definition user_prompt (request : StoryRequest) : string :=
  "The theme of the story is: " +:+ theme request.

Definition story_call (request : StoryRequest) : chat_request :=
  {| chat_model := "gpt-4o";
     messages := [ mkMessage "system" system_prompt;
                   mkMessage "user" (user_prompt request) ];
     temperature := "0.7";
     response_format_type := "json_object" |}.

(** [generate_story]: the calls made and what the endpoint returns, the
    text of the model's answer as it came. *)
Definition generate_story (api_key : option string) (w : World)
    (request : StoryRequest) : list ext_call * (HTTPException + string) :=
  if not_configured api_key then ([], inl key_error)
  else
    ([ChatCompletionsCreate (story_call request)],
     match (response <- chat_completions_create w (story_call request) ;;
            first <- getitem (choices response) 0 ;;
            inr (content (message first)))%try with
     | inr text => inr text
     | inl e =>
         inl (mkHTTPException 500
                ("Failed to generate story. Error: " +:+ str e))
     end).

Definition scene_prompts (request : BookRequest) : list string :=
  [cover_prompt] ++ paragraphs request.

Definition image_tasks (w : World) (request : BookRequest) : list (Task bytes) :=
  map (generate_image_data w) (scene_prompts request).

(** Lines 169-174: the fan-out, [image_data_list] of the source. *)
Definition image_data_list (w : World) (sched : list nat) (request : BookRequest)
  : list ext_call * outcome (list bytes) :=
  gather w sched (image_tasks w request).

Definition pdf_response (pdf_buffer : document) : StreamingResponse :=
  {| body := pdf_buffer;
     media_type := "application/pdf";
     headers := [("Content-Disposition", "attachment; filename=libro_de_cuentos.pdf")] |}.

(** The two [except] clauses of [generate_book]. *)
Definition book_handler (e : exn) : HTTPException :=
  match e with
  | Http e => e
  | Py e => mkHTTPException 500 ("Failed to generate the book. Error: " +:+ str e)
  end.

Definition generate_book (api_key : option string) (w : World) (sched : list nat)
    (request : BookRequest) : list ext_call * outcome StreamingResponse :=
  if not_configured api_key then ([], Raised key_error)
  else
    let '(calls, images) := image_data_list w sched request in
    (calls,
     match images with
     | Pending => Pending
     | Raised e => Raised (book_handler (Http e))
     | Returned images =>
         match create_pdf_book w (title request) (paragraphs request) images with
         | inr pdf_buffer => Returned (pdf_response pdf_buffer)
         | inl e => Raised (book_handler (Py e))
         end
     end).

(** The operations as a process started in [environ] serves them: there
    is an answer only if the import of the module went through. *)
Definition serve_story (w : World) (environ : gmap string string)
    (request : StoryRequest) : py_error + list ext_call * (HTTPException + string) :=
  (api_key <- import_main w environ ;;
   inr (generate_story api_key w request))%try.

Definition serve_book (w : World) (environ : gmap string string) (sched : list nat)
    (request : BookRequest) : py_error + list ext_call * outcome StreamingResponse :=
  (api_key <- import_main w environ ;;
   inr (generate_book api_key w sched request))%try.

(** The outcome of the image call of the task at position [i] of a
    fan-out, for the scene [prompt]. *)
Definition image_outcome (w : World) (i : nat) (prompt : string)
  : HTTPException + bytes :=
  settle w i (generate_image_data w prompt).

(** ** The Story of the specification *)

Record Story : Type := mkStory {
  story_title : string;
  story_paragraphs : list string
}.

(** Reading a text as a JSON object whose members are strings or arrays
    of strings, which is the shape the system prompt asks the model for.
    (Escapes of the form \uXXXX are not read.) *)
Inductive token : Type :=
| TLBrace | TRBrace | TLBracket | TRBracket | TColon | TComma
| TString (s : string).

Inductive lexing : Type :=
| Outside
| InString (acc : string)
| Escaped (acc : string).

Definition snoc_char (acc : string) (c : ascii) : string :=
  acc +:+ String c EmptyString.

Definition unescape (c : ascii) : option ascii :=
  match nat_of_ascii c with
  | 34 => Some c                    (* quote *)
  | 92 => Some c                    (* backslash *)
  | 47 => Some c                    (* slash *)
  | 110 => Some (ascii_of_nat 10)   (* n *)
  | 116 => Some (ascii_of_nat 9)    (* t *)
  | 114 => Some (ascii_of_nat 13)   (* r *)
  | 98 => Some (ascii_of_nat 8)     (* b *)
  | 102 => Some (ascii_of_nat 12)   (* f *)
  | _ => None
  end.

Definition punctuation (c : ascii) : option (option token) :=
  match nat_of_ascii c with
  | 123 => Some (Some TLBrace)
  | 125 => Some (Some TRBrace)
  | 91 => Some (Some TLBracket)
  | 93 => Some (Some TRBracket)
  | 58 => Some (Some TColon)
  | 44 => Some (Some TComma)
  | 32 | 9 | 10 | 13 => Some None   (* white space *)
  | _ => None
  end.

Fixpoint lex (st : lexing) (text : string) : option (list token) :=
  match text, st with
  | EmptyString, Outside => Some []
  | EmptyString, _ => None
  | String c rest, Outside =>
      if bool_decide (nat_of_ascii c = 34) then lex (InString EmptyString) rest
      else match punctuation c with
           | Some (Some t) => option_map (cons t) (lex Outside rest)
           | Some None => lex Outside rest
           | None => None
           end
  | String c rest, InString acc =>
      if bool_decide (nat_of_ascii c = 34)
      then option_map (cons (TString acc)) (lex Outside rest)
      else if bool_decide (nat_of_ascii c = 92) then lex (Escaped acc) rest
      else lex (InString (snoc_char acc c)) rest
  | String c rest, Escaped acc =>
      match unescape c with
      | Some c' => lex (InString (snoc_char acc c')) rest
      | None => None
      end
  end.

Inductive value : Type :=
| VString (s : string)
| VArray (items : list string).

(** The strings of an array, after its first one has been met. *)
Fixpoint more_strings (ts : list token) : option (list string * list token) :=
  match ts with
  | TRBracket :: rest => Some ([], rest)
  | TComma :: TString s :: rest =>
      match more_strings rest with
      | Some (items, rest') => Some (s :: items, rest')
      | None => None
      end
  | _ => None
  end.

Definition parse_value (ts : list token) : option (value * list token) :=
  match ts with
  | TString s :: rest => Some (VString s, rest)
  | TLBracket :: TRBracket :: rest => Some (VArray [], rest)
  | TLBracket :: TString s :: rest =>
      match more_strings rest with
      | Some (items, rest') => Some (VArray (s :: items), rest')
      | None => None
      end
  | _ => None
  end.

Fixpoint parse_members (fuel : nat) (ts : list token) : option (list (string * value)) :=
  match fuel with
  | 0 => None
  | S fuel =>
      match ts with
      | TString k :: TColon :: ts1 =>
          match parse_value ts1 with
          | Some (v, [TRBrace]) => Some [(k, v)]
          | Some (v, TComma :: ts2) => option_map (cons (k, v)) (parse_members fuel ts2)
          | _ => None
          end
      | _ => None
      end
  end.

Definition parse_object (ts : list token) : option (list (string * value)) :=
  match ts with
  | [TLBrace; TRBrace] => Some []
  | TLBrace :: members => parse_members (length members) members
  | _ => None
  end.

Fixpoint member (k : string) (members : list (string * value)) : option value :=
  match members with
  | [] => None
  | (k', v) :: rest =>
      match member k rest with
      | Some v' => Some v'
      | None => if bool_decide (k' = k) then Some v else None
      end
  end.

Definition decode_story (text : string) : option Story :=
  match lex Outside text with
  | None => None
  | Some ts =>
      match parse_object ts with
      | None => None
      | Some members =>
          match member "title" members, member "paragraphs" members with
          | Some (VString t), Some (VArray ps) => Some (mkStory t ps)
          | _, _ => None
          end
      end
  end.

(** A text is a Story when it decodes to a non-empty title and exactly
    five paragraphs. *)
Definition is_story (text : string) : Prop :=
  exists s, decode_story text = Some s
            /\ length (story_paragraphs s) = 5
            /\ story_title s <> EmptyString.

(** The pages of the body, paragraph by paragraph, for the images that
    follow the cover. *)
Fixpoint interleave (paragraphs : list string) (images : list bytes) : list page :=
  match paragraphs, images with
  | paragraph_text :: ps, image :: imgs =>
      text_page paragraph_text :: illustration_page image :: interleave ps imgs
  | _, _ => []
  end.

(** A well-formed answer with three paragraphs. *)
Definition sample_text : string :=
  "{" +:+ dquote +:+ "title" +:+ dquote +:+ ": " +:+ dquote +:+ "El barrilete" +:+ dquote +:+ ", "
  +:+ dquote +:+ "paragraphs" +:+ dquote +:+ ": [" +:+ dquote +:+ "uno" +:+ dquote +:+ ", "
  +:+ dquote +:+ "dos" +:+ dquote +:+ ", " +:+ dquote +:+ "tres" +:+ dquote +:+ "]}".

(** ** Test doubles *)

(** The image service answers every call with its own prompt as payload,
    and decoding keeps the bytes of the payload. *)
Definition echo_images (i : nat) (r : images_request) : py_error + ImagesResponse :=
  inr (mkImagesResponse [mkImage (img_prompt r)]).

Definition echo_decode (payload : string) : py_error + bytes :=
  inr (list_byte_of_string payload).

(** The text service answers with [text] as the content of its only choice. *)
Definition answer (text : string) (r : chat_request) : py_error + ChatCompletion :=
  inr (mkChatCompletion [mkChoice (mkMessage "assistant" text)]).

(** The constructor of the client refuses a missing key. *)
Definition openai_constructor (api_key : option string) : py_error + unit :=
  match api_key with
  | Some _ => inr tt
  | None =>
      inl (OpenAIError "The api_key client option must be set either by passing api_key to the client or by setting the OPENAI_API_KEY environment variable")
  end.

(** A binary PPM file of one pixel. *)
Definition ppm_pixel (r g b : Byte.byte) : bytes :=
  list_byte_of_string ("P6" +:+ newline +:+ "1 1" +:+ newline +:+ "255" +:+ newline)
  ++ [r; g; b].

(** A reader that takes the one-pixel PPM files for images and nothing
    else. *)
Definition ppm_reader (payload : bytes) : py_error + bytes :=
  if bool_decide (Byte.to_nat <$> take 11 payload
                    = [80; 54; 10; 49; 32; 49; 10; 50; 53; 53; 10]
                  /\ length payload = 14)
  then inr payload
  else inl (OSError "cannot identify image file").

(** A paragraph that takes a text free of markup as it is, and refuses
    a text with a tag or an entity in it. *)
Definition plain_paragraph (text : string) (style : ParagraphStyle) : py_error + string :=
  if bool_decide (Forall (fun c => nat_of_ascii c <> 60 /\ nat_of_ascii c <> 38)
                    (list_ascii_of_string text))
  then inr text
  else inl (ValueError "paragraph text has invalid markup").

Definition echo_world (text : string) : World :=
  {| AsyncOpenAI := openai_constructor;
     chat_completions_create := answer text;
     images_generate := echo_images;
     b64decode := echo_decode;
     ImageReader := ppm_reader;
     Paragraph := plain_paragraph |}.

(** As [echo_world], but the image call of task [k] fails. *)
Definition failing_world (k : nat) : World :=
  {| AsyncOpenAI := openai_constructor;
     chat_completions_create := answer EmptyString;
     images_generate := fun i r =>
       if bool_decide (i = k) then inl (APIError "quota exceeded") else echo_images i r;
     b64decode := echo_decode;
     ImageReader := ppm_reader;
     Paragraph := plain_paragraph |}.

Definition image_1 : bytes := ppm_pixel Byte.xff Byte.x00 Byte.x00.
Definition image_2 : bytes := ppm_pixel Byte.x00 Byte.xff Byte.x00.
Definition image_3 : bytes := ppm_pixel Byte.x00 Byte.x00 Byte.xff.

(** The base64 text of [image_1]. *)
Definition image_1_b64 : string := "UDYKMSAxCjI1NQr/AAA=".

(** The image service answers every call with [image_1] in base64, and
    decoding knows this one payload. *)
Definition studio_world : World :=
  {| AsyncOpenAI := openai_constructor;
     chat_completions_create := answer EmptyString;
     images_generate := fun i r => inr (mkImagesResponse [mkImage image_1_b64]);
     b64decode := fun payload =>
       if bool_decide (payload = image_1_b64) then inr image_1
       else inl (BinasciiError "Incorrect padding");
     ImageReader := ppm_reader;
     Paragraph := plain_paragraph |}.

(** ** Statements of the specification that are put to the test *)

(** The layout rejects a miscounted image sequence: whenever the number
    of images is not the number of paragraphs plus one, it fails and
    leaves the buffer unwritten. *)
Definition rejects_miscounted_images : Prop :=
  forall (w : World) (title : string) (paragraphs : list string) (image_data : list bytes),
    length image_data <> length paragraphs + 1 ->
    exists e c, create_pdf_book_run w title paragraphs image_data = (inl e, c)
                /\ buffer c = None.

(** The layout makes a book of 1 + 2*N pages of every title, N
    paragraphs and N+1 images. *)
Definition lays_out_every_book : Prop :=
  forall (w : World) (title : string) (paragraphs : list string) (image_data : list bytes),
    length image_data = length paragraphs + 1 ->
    exists doc, create_pdf_book w title paragraphs image_data = inr doc
                /\ length doc = 1 + 2 * length paragraphs.

(** The library takes a payload for an image, a text for a paragraph. *)
Definition readable (w : World) (payload : bytes) : Prop :=
  exists picture, ImageReader w payload = inr picture.

Definition well_formed (w : World) (text : string) : Prop :=
  exists flow, Paragraph w text text_style = inr flow.

(** The pictures read from a list of payloads, the texts read from a
    list of paragraphs. *)
Definition decodes (w : World) (payloads pictures : list bytes) : Prop :=
  Forall2 (fun payload picture => ImageReader w payload = inr picture) payloads pictures.

Definition parses (w : World) (texts flows : list string) : Prop :=
  Forall2 (fun text flow => Paragraph w text text_style = inr flow) texts flows.

(** For a non-empty theme, what [generate_story] returns is a Story. *)
Definition returns_story_or_fails : Prop :=
  forall (api_key : option string) (w : World) (request : StoryRequest),
    theme request <> EmptyString ->
    match snd (generate_story api_key w request) with
    | inr text => is_story text
    | inl _ => True
    end.

(** An empty theme is refused before any call is made. *)
Definition rejects_empty_theme : Prop :=
  forall (api_key : option string) (w : World) (request : StoryRequest),
    theme request = EmptyString ->
    fst (generate_story api_key w request) = []
    /\ exists e, snd (generate_story api_key w request) = inl e.

(** The error of a book whose only failing image call is that of scene
    [k] tells [k]: [index_of] reads it off the error. *)
Definition failure_names_index (index_of : HTTPException -> nat) : Prop :=
  forall (api_key : option string) (w : World) (sched : list nat)
         (request : BookRequest) (k : nat) (p : string) (e : HTTPException),
    not_configured api_key = false ->
    sched ≡ₚ seq 0 (S (length (paragraphs request))) ->
    scene_prompts request !! k = Some p ->
    (exists e', image_outcome w k p = inl e') ->
    (forall j q, j <> k -> scene_prompts request !! j = Some q ->
                 exists image, image_outcome w j q = inr image) ->
    snd (generate_book api_key w sched request) = Raised e ->
    index_of e = k.

(** The call [generate_image_data] issues for a scene. *)
Definition image_call (scene : string) : ext_call :=
  ImagesGenerate
    {| img_model := "dall-e-3";
       img_prompt := ART_STYLE_PROMPT +:+ newline +:+ newline +:+ "**Scene:** " +:+ scene;
       img_size := "1024x768";
       img_quality := "standard";
       img_n := 1;
       img_response_format := "b64_json" |}.

(** ** Reading a book back *)

(** What a reader finds on the pages of a document: the title and image
    of a cover page, the text of a text page, the image of an
    illustration page. *)
Definition read_cover (pg : page) : option (string * bytes) :=
  match pg with
  | [DrawImage image; SetFont _ _; SetFillColor _; DrawCentredString text] =>
      Some (text, image)
  | _ => None
  end.

Definition read_text (pg : page) : option string :=
  match pg with
  | [SetFillColor _; Rect; DrawParagraph text _] => Some text
  | _ => None
  end.

Definition read_illustration (pg : page) : option bytes :=
  match pg with
  | [DrawImage image] => Some image
  | _ => None
  end.

Fixpoint read_body (pgs : list page) : option (list string * list bytes) :=
  match pgs with
  | [] => Some ([], [])
  | text :: illustration :: rest =>
      match read_text text, read_illustration illustration, read_body rest with
      | Some p, Some image, Some (ps, images) => Some (p :: ps, image :: images)
      | _, _, _ => None
      end
  | _ => None
  end.

(** The title, the paragraphs and the images of a document. *)
Definition read_book (doc : document) : option (string * list string * list bytes) :=
  match doc with
  | cover :: body_pages =>
      match read_cover cover, read_body body_pages with
      | Some (text, image), Some (ps, images) => Some (text, ps, image :: images)
      | _, _ => None
      end
  | [] => None
  end.

(** As [echo_world], but the image calls of the tasks in [ks] fail. *)
Definition failing_worlds (ks : list nat) : World :=
  {| AsyncOpenAI := openai_constructor;
     chat_completions_create := answer EmptyString;
     images_generate := fun i r =>
       if bool_decide (i ∈ ks) then inl (APIError "quota exceeded") else echo_images i r;
     b64decode := echo_decode;
     ImageReader := ppm_reader;
     Paragraph := plain_paragraph |}.

(** A filled slot of a gather holds what the call of its own task
    returned. *)
Definition slots_sound {A} (w : World) (tasks : list (Task A))
    (slots : list (option A)) : Prop :=
  forall j v, slots !! j = Some (Some v) ->
    exists t, tasks !! j = Some t /\ settle w j t = inr v.

(** * Properties *)

(** ** The layout *)

Section Layout.

Context (w : World).

Implicit Types (paragraphs : list string) (image_data : list bytes) (c : Canvas).

Lemma interleave_length paragraphs (images : list bytes) :
  length paragraphs <= length images ->
  length (interleave paragraphs images) = 2 * length paragraphs.
Proof.
  revert images; induction paragraphs as [|p ps IH]; intros [|img imgs] Hlen;
    simpl in *; try lia.
  rewrite IH by lia. lia.
Qed.

Lemma interleave_lookup paragraphs (images : list bytes) i p img :
  paragraphs !! i = Some p -> images !! i = Some img ->
  interleave paragraphs images !! (2 * i) = Some (text_page p)
  /\ interleave paragraphs images !! (2 * i + 1) = Some (illustration_page img).
Proof.
  revert images i; induction paragraphs as [|q ps IH]; intros [|im imgs] [|i] Hp Hi;
    simpl in *; try discriminate.
  - injection Hp as ->. injection Hi as ->. done.
  - replace (i + S (i + 0)) with (S (2 * i)) by lia.
    simpl. apply IH; done.
Qed.

Lemma interleave_take paragraphs (images : list bytes) :
  interleave paragraphs (take (length paragraphs) images) = interleave paragraphs images.
Proof.
  revert images; induction paragraphs as [|p ps IH]; intros [|img imgs]; simpl; try done.
  by rewrite IH.
Qed.

Lemma readable_decodes (payloads : list bytes) :
  Forall (readable w) payloads -> exists pictures, decodes w payloads pictures.
Proof.
  induction 1 as [|payload payloads [picture Hp] _ [pictures IH]].
  - exists []. constructor.
  - exists (picture :: pictures). by constructor.
Qed.

Lemma well_formed_parses (texts : list string) :
  Forall (well_formed w) texts -> exists flows, parses w texts flows.
Proof.
  induction 1 as [|text texts [flow Hf] _ [flows IH]].
  - exists []. constructor.
  - exists (flow :: flows). by constructor.
Qed.

(** One turn of the loop. *)
Lemma for_paragraphs_cons i p paragraphs image_data c :
  for_paragraphs w i (p :: paragraphs) image_data c =
    match Paragraph w p text_style with
    | inl e =>
        (inl e, {| buffer := buffer c; pages := pages c;
                   code := (code c ++ [SetFillColor cream_color]) ++ [Rect] |})
    | inr flow =>
        let text := ((code c ++ [SetFillColor cream_color]) ++ [Rect])
                    ++ [DrawParagraph flow text_style] in
        let c1 := {| buffer := buffer c; pages := pages c ++ [text]; code := [] |} in
        match image_data !! (i + 1) with
        | None => (inl IndexError, c1)
        | Some payload =>
            match ImageReader w payload with
            | inl e => (inl e, c1)
            | inr picture =>
                for_paragraphs w (S i) paragraphs image_data
                  {| buffer := buffer c;
                     pages := (pages c ++ [text]) ++ [illustration_page picture];
                     code := [] |}
            end
        end
    end.
Proof.
  simpl. unfold bind, setFillColor, rect, drawParagraph, drawImage, showPage,
    emit, lift, getitem; simpl.
  destruct (Paragraph w p text_style) as [e|flow]; [done|]. simpl.
  destruct (image_data !! (i + 1)) as [payload|]; [|done].
  destruct (ImageReader w payload) as [e|picture]; done.
Qed.

Lemma create_pdf_book_run_eq title paragraphs image_data :
  create_pdf_book_run w title paragraphs image_data =
    match image_data with
    | [] => (inl IndexError, new_canvas)
    | payload :: _ =>
        match ImageReader w payload with
        | inl e => (inl e, new_canvas)
        | inr picture =>
            match for_paragraphs w 0 paragraphs image_data
                    {| buffer := None; pages := [cover_page title picture]; code := [] |}
            with
            | (inl e, c) => (inl e, c)
            | (inr _, c) =>
                let closed := match code c with
                              | [] => pages c
                              | _ => pages c ++ [code c]
                              end in
                (inr closed, {| buffer := Some closed; pages := closed; code := [] |})
            end
        end
    end.
Proof.
  unfold create_pdf_book_run, create_pdf_book_body.
  destruct image_data as [|payload rest]; [done|].
  unfold bind at 1. simpl. unfold bind at 1. unfold lift at 1.
  destruct (ImageReader w payload) as [e|picture]; [done|].
  unfold bind at 1. simpl. unfold bind at 1. simpl.
  unfold bind at 1. simpl. unfold bind at 1. simpl.
  unfold bind at 1. simpl. unfold bind at 1.
  destruct (for_paragraphs w 0 paragraphs (payload :: rest) _) as [[e|[]] c]; done.
Qed.

(** The loop never writes the buffer. *)
Lemma for_paragraphs_buffer paragraphs : forall i image_data c,
  buffer (snd (for_paragraphs w i paragraphs image_data c)) = buffer c.
Proof.
  induction paragraphs as [|p ps IH]; intros i image_data c; [done|].
  rewrite for_paragraphs_cons.
  destruct (Paragraph w p text_style) as [e|flow]; [done|]. simpl.
  destruct (image_data !! (i + 1)) as [payload|]; [|done].
  destruct (ImageReader w payload) as [e|picture]; [done|].
  by rewrite IH.
Qed.

(** The loop, when the images suffice and the library reads every
    paragraph and image: two pages per paragraph are closed and nothing
    else changes. *)
Lemma for_paragraphs_ok paragraphs : forall flows pictures i image_data c,
  code c = [] ->
  parses w paragraphs flows ->
  decodes w (take (length paragraphs) (drop (S i) image_data)) pictures ->
  length paragraphs <= length (drop (S i) image_data) ->
  for_paragraphs w i paragraphs image_data c =
    (inr tt, {| buffer := buffer c;
                pages := pages c ++ interleave flows pictures;
                code := [] |}).
Proof.
  induction paragraphs as [|p ps IH];
    intros flows pictures i image_data [b pg cd] Hcode Hparse Hdecode Hlen;
    simpl in Hcode; subst cd.
  - inversion Hparse; subst. simpl. unfold ret. by rewrite app_nil_r.
  - inversion Hparse as [|? flow ? flows' Hflow Hparse']; subst.
    simpl in Hlen.
    destruct (image_data !! (i + 1)) as [payload|] eqn:Hpayload.
    2:{ apply lookup_ge_None in Hpayload. rewrite length_drop in Hlen. lia. }
    rewrite for_paragraphs_cons, Hflow, Hpayload. simpl.
    replace (i + 1) with (S i) in Hpayload by lia.
    rewrite (drop_S _ _ _ Hpayload) in Hlen, Hdecode. simpl in Hlen, Hdecode.
    inversion Hdecode as [|? picture ? pictures' Hpicture Hdecode']; subst.
    rewrite Hpicture.
    rewrite (IH flows' pictures'); simpl; [|done|done|done|lia].
    by rewrite <- !app_assoc.
Qed.

(** Conversely, a loop that ends well has read every paragraph and the
    image of each. *)
Lemma for_paragraphs_inr paragraphs : forall i image_data c c',
  code c = [] ->
  for_paragraphs w i paragraphs image_data c = (inr tt, c') ->
  exists flows pictures,
    parses w paragraphs flows
    /\ decodes w (take (length paragraphs) (drop (S i) image_data)) pictures
    /\ length paragraphs <= length (drop (S i) image_data)
    /\ c' = {| buffer := buffer c;
               pages := pages c ++ interleave flows pictures;
               code := [] |}.
Proof.
  induction paragraphs as [|p ps IH]; intros i image_data [b pg cd] c' Hcode Hrun;
    simpl in Hcode; subst cd.
  - simpl in Hrun. unfold ret in Hrun. injection Hrun as <-.
    exists [], []. simpl. rewrite app_nil_r.
    repeat split; try constructor. lia.
  - rewrite for_paragraphs_cons in Hrun.
    destruct (Paragraph w p text_style) as [e|flow] eqn:Hflow; [done|]. simpl in Hrun.
    destruct (image_data !! (i + 1)) as [payload|] eqn:Hpayload; [|done].
    destruct (ImageReader w payload) as [e|picture] eqn:Hpicture; [done|].
    apply IH in Hrun as (flows & pictures & Hparse & Hdecode & Hlen & ->); [|done].
    replace (i + 1) with (S i) in Hpayload by lia.
    exists (flow :: flows), (picture :: pictures).
    rewrite (drop_S _ _ _ Hpayload). simpl.
    split; [by constructor|]. split; [by constructor|]. split; [lia|].
    by rewrite <- !app_assoc.
Qed.

(** A loop that raises with images enough raises an error of the
    library, on one of its paragraphs or on one of their images. *)
Lemma for_paragraphs_inl paragraphs : forall i image_data c c' e,
  length paragraphs <= length (drop (S i) image_data) ->
  for_paragraphs w i paragraphs image_data c = (inl e, c') ->
  (exists p, p ∈ paragraphs /\ Paragraph w p text_style = inl e)
  \/ (exists payload, payload ∈ take (length paragraphs) (drop (S i) image_data)
                      /\ ImageReader w payload = inl e).
Proof.
  induction paragraphs as [|p ps IH]; intros i image_data c c' e Hlen Hrun; [done|].
  rewrite for_paragraphs_cons in Hrun. simpl in Hlen.
  destruct (Paragraph w p text_style) as [e0|flow] eqn:Hflow.
  { injection Hrun as <- _. left. exists p. split; [apply elem_of_cons; by left|done]. }
  simpl in Hrun.
  destruct (image_data !! (i + 1)) as [payload|] eqn:Hpayload.
  2:{ apply lookup_ge_None in Hpayload. rewrite length_drop in Hlen. lia. }
  replace (i + 1) with (S i) in Hpayload by lia.
  rewrite (drop_S _ _ _ Hpayload) in Hlen |- *. simpl in Hlen |- *.
  destruct (ImageReader w payload) as [e0|picture] eqn:Hpicture.
  { injection Hrun as <- _. right. exists payload.
    split; [apply elem_of_cons; by left|done]. }
  apply IH in Hrun as [(q & Hq & He)|(pl & Hpl & He)]; [| |lia].
  - left. exists q. split; [apply elem_of_cons; by right|done].
  - right. exists pl. split; [apply elem_of_cons; by right|done].
Qed.

(** The loop, when the images run out and the library reads what is
    there: the pages closed so far stay on the canvas, the last of them
    the text page that found no image. *)
Lemma for_paragraphs_stops paragraphs : forall i image_data c,
  code c = [] ->
  length (drop (S i) image_data) < length paragraphs ->
  Forall (readable w) (drop (S i) image_data) ->
  Forall (well_formed w) (take (S (length (drop (S i) image_data))) paragraphs) ->
  exists c', for_paragraphs w i paragraphs image_data c = (inl IndexError, c')
             /\ buffer c' = buffer c
             /\ code c' = []
             /\ length (pages c') = length (pages c) + 2 * length (drop (S i) image_data) + 1.
Proof.
  induction paragraphs as [|p ps IH]; intros i image_data [b pg cd] Hcode Hlen Hread Hwf;
    simpl in Hcode; subst cd; simpl in Hlen; [lia|].
  simpl in Hwf. apply Forall_cons in Hwf as [[flow Hflow] Hwf].
  rewrite for_paragraphs_cons, Hflow. simpl.
  replace (i + 1) with (S i) by lia.
  destruct (image_data !! S i) as [payload|] eqn:Hpayload.
  - rewrite (drop_S _ _ _ Hpayload) in Hlen, Hread, Hwf |- *. simpl in Hlen, Hwf |- *.
    apply Forall_cons in Hread as [[picture Hpicture] Hread].
    rewrite Hpicture.
    match goal with
    | |- context [for_paragraphs w (S i) ps image_data ?c0] =>
        destruct (IH (S i) image_data c0) as (c' & -> & Hb & Hc & Hp);
          [done|lia|done|done|]
    end.
    exists c'. repeat split; try done.
    rewrite Hp. simpl. rewrite !length_app. simpl. lia.
  - apply lookup_ge_None in Hpayload. rewrite drop_ge by lia.
    eexists. repeat split; try done. simpl. rewrite length_app. simpl. lia.
Qed.

(** The loop reads the images up to the index of its last paragraph
    only. *)
Lemma for_paragraphs_prefix paragraphs : forall i (images1 images2 : list bytes) c,
  take (S i + length paragraphs) images1 = take (S i + length paragraphs) images2 ->
  for_paragraphs w i paragraphs images1 c = for_paragraphs w i paragraphs images2 c.
Proof.
  induction paragraphs as [|p ps IH]; intros i images1 images2 c Htake; [done|].
  rewrite !for_paragraphs_cons.
  assert (images1 !! (i + 1) = images2 !! (i + 1)) as ->.
  { rewrite <- (lookup_take_lt images1 (S i + length (p :: ps))) by (simpl; lia).
    rewrite <- (lookup_take_lt images2 (S i + length (p :: ps))) by (simpl; lia).
    by rewrite Htake. }
  destruct (Paragraph w p text_style) as [e|flow]; [done|]. simpl.
  destruct (images2 !! (i + 1)) as [payload|]; [|done].
  destruct (ImageReader w payload) as [e|picture]; [done|].
  apply IH. simpl in Htake.
  replace (S (S i) + length ps) with (S (i + S (length ps))) by lia. done.
Qed.

Lemma create_pdf_book_run_ok title paragraphs payload rest cover flows pictures :
  ImageReader w payload = inr cover ->
  parses w paragraphs flows ->
  decodes w (take (length paragraphs) rest) pictures ->
  length paragraphs <= length rest ->
  let doc := cover_page title cover :: interleave flows pictures in
  create_pdf_book_run w title paragraphs (payload :: rest) =
    (inr doc, {| buffer := Some doc; pages := doc; code := [] |}).
Proof.
  intros Hcover Hparse Hdecode Hlen doc.
  rewrite create_pdf_book_run_eq, Hcover.
  rewrite (for_paragraphs_ok paragraphs flows pictures); simpl; try done;
    by rewrite ?drop_0.
Qed.

Lemma create_pdf_book_run_inr title paragraphs image_data doc c :
  create_pdf_book_run w title paragraphs image_data = (inr doc, c) ->
  exists payload rest cover flows pictures,
    image_data = payload :: rest
    /\ ImageReader w payload = inr cover
    /\ parses w paragraphs flows
    /\ decodes w (take (length paragraphs) rest) pictures
    /\ length paragraphs <= length rest
    /\ doc = cover_page title cover :: interleave flows pictures
    /\ c = {| buffer := Some doc; pages := doc; code := [] |}.
Proof.
  rewrite create_pdf_book_run_eq.
  destruct image_data as [|payload rest]; [done|].
  destruct (ImageReader w payload) as [e|cover] eqn:Hcover; [done|].
  destruct (for_paragraphs w 0 paragraphs (payload :: rest) _) as [[e|[]] c0] eqn:Hloop;
    [done|].
  apply for_paragraphs_inr in Hloop
    as (flows & pictures & Hparse & Hdecode & Hlen & ->); [|done].
  simpl in *. rewrite drop_0 in Hdecode, Hlen.
  intros [= <- <-].
  by exists payload, rest, cover, flows, pictures.
Qed.

(** A call that raises leaves the buffer unwritten. *)
Lemma create_pdf_book_run_buffer title paragraphs image_data e c :
  create_pdf_book_run w title paragraphs image_data = (inl e, c) ->
  buffer c = None.
Proof.
  rewrite create_pdf_book_run_eq.
  destruct image_data as [|payload rest]; [by intros [= _ <-]|].
  destruct (ImageReader w payload) as [e0|cover]; [by intros [= _ <-]|].
  match goal with
  | |- context [for_paragraphs w 0 paragraphs (payload :: rest) ?c0] =>
      pose proof (for_paragraphs_buffer paragraphs 0 (payload :: rest) c0) as Hb;
      destruct (for_paragraphs w 0 paragraphs (payload :: rest) c0) as [[e1|[]] c1]
  end; [|done].
  intros [= _ <-]. done.
Qed.

(** With images enough, a call that raises raises an error of the
    library, on one of the paragraphs or on one of the first N+1 images. *)
Lemma create_pdf_book_run_inl title paragraphs image_data e c :
  length paragraphs + 1 <= length image_data ->
  create_pdf_book_run w title paragraphs image_data = (inl e, c) ->
  (exists p, p ∈ paragraphs /\ Paragraph w p text_style = inl e)
  \/ (exists payload, payload ∈ take (length paragraphs + 1) image_data
                      /\ ImageReader w payload = inl e).
Proof.
  intros Hlen. rewrite create_pdf_book_run_eq.
  destruct image_data as [|payload rest]; simpl in Hlen; [lia|].
  replace (length paragraphs + 1) with (S (length paragraphs)) by lia. simpl.
  destruct (ImageReader w payload) as [e0|cover] eqn:Hcover.
  { intros [= <- _]. right. exists payload. split; [apply elem_of_cons; by left|done]. }
  destruct (for_paragraphs w 0 paragraphs (payload :: rest) _) as [[e1|[]] c1] eqn:Hloop;
    [|done].
  intros [= <- _].
  apply for_paragraphs_inl in Hloop as [Hp|(pl & Hpl & He)];
    [by left| |simpl; rewrite drop_0; lia].
  right. exists pl. simpl in Hpl. rewrite drop_0 in Hpl.
  split; [apply elem_of_cons; by right|done].
Qed.

(** With k images, fewer than needed and all of them images, and the
    first k paragraphs well formed, the call closes two pages for each
    image it has and then finds none. *)
Lemma create_pdf_book_run_stops title paragraphs image_data :
  image_data <> [] ->
  length image_data < length paragraphs + 1 ->
  Forall (readable w) image_data ->
  Forall (well_formed w) (take (length image_data) paragraphs) ->
  exists c, create_pdf_book_run w title paragraphs image_data = (inl IndexError, c)
            /\ buffer c = None
            /\ code c = []
            /\ length (pages c) = 2 * length image_data.
Proof.
  intros Hne Hlen Hread Hwf. rewrite create_pdf_book_run_eq.
  destruct image_data as [|payload rest]; [done|]. simpl in Hlen.
  apply Forall_cons in Hread as [[cover ->] Hread].
  match goal with
  | |- context [for_paragraphs w 0 paragraphs (payload :: rest) ?c0] =>
      destruct (for_paragraphs_stops paragraphs 0 (payload :: rest) c0)
        as (c' & -> & Hb & Hc & Hp); simpl; rewrite ?drop_0; try done; try lia
  end.
  exists c'. repeat split; try done.
  rewrite Hp. simpl. rewrite drop_0. lia.
Qed.

(** The call reads the first N+1 images only. *)
Lemma create_pdf_book_run_prefix title paragraphs (images1 images2 : list bytes) :
  take (length paragraphs + 1) images1 = take (length paragraphs + 1) images2 ->
  create_pdf_book_run w title paragraphs images1
  = create_pdf_book_run w title paragraphs images2.
Proof.
  intros Htake. rewrite !create_pdf_book_run_eq.
  replace (length paragraphs + 1) with (S (length paragraphs)) in Htake by lia.
  assert (forall c, for_paragraphs w 0 paragraphs images1 c
                    = for_paragraphs w 0 paragraphs images2 c) as Hloop.
  { intros c. by apply for_paragraphs_prefix. }
  destruct images1 as [|p1 r1], images2 as [|p2 r2]; simpl in Htake; try done.
  injection Htake as -> Hrest.
  destruct (ImageReader w p2) as [e|cover]; [done|].
  by rewrite Hloop.
Qed.

End Layout.

(** C2 fails on the code: a paragraph whose markup the library refuses
    makes the call raise, with images that are all images. *)
Lemma lays_out_every_book_counterexample : ~ lays_out_every_book.
Proof.
  intros H.
  destruct (H (echo_world EmptyString) "Cuento" ["<b>uno"] [image_1; image_2])
    as (doc & Hdoc & _); [done|].
  discriminate Hdoc.
Qed.

(** C2, amended.  For a title, N paragraphs and N+1 images, when
    reportlab reads every image and every paragraph, the book has
    1 + 2*N pages: the cover page (first image and title), then for each
    paragraph i, in order, its text page followed by the illustration
    page of image i+1. *)
Theorem create_pdf_book_page_sequence (w : World) (title : string)
    (paragraphs : list string) (image_data : list bytes) :
  length image_data = length paragraphs + 1 ->
  Forall (readable w) image_data ->
  Forall (well_formed w) paragraphs ->
  exists doc,
    create_pdf_book w title paragraphs image_data = inr doc
    /\ length doc = 1 + 2 * length paragraphs
    /\ (exists payload cover,
          image_data !! 0 = Some payload
          /\ ImageReader w payload = inr cover
          /\ doc !! 0 = Some (cover_page title cover))
    /\ (forall i p, paragraphs !! i = Some p ->
          exists flow payload picture,
            Paragraph w p text_style = inr flow
            /\ image_data !! (i + 1) = Some payload
            /\ ImageReader w payload = inr picture
            /\ doc !! (1 + 2 * i) = Some (text_page flow)
            /\ doc !! (1 + 2 * i + 1) = Some (illustration_page picture)).
Proof.
  intros Hlen Hread Hwf.
  destruct image_data as [|payload rest]; simpl in Hlen; [lia|].
  apply Forall_cons in Hread as [[cover Hcover] Hread].
  destruct (readable_decodes w rest Hread) as [pictures Hdecode].
  destruct (well_formed_parses w paragraphs Hwf) as [flows Hparse].
  pose proof (Forall2_length _ _ _ Hdecode) as Hlp.
  pose proof (Forall2_length _ _ _ Hparse) as Hlf.
  exists (cover_page title cover :: interleave flows pictures).
  unfold create_pdf_book.
  rewrite (create_pdf_book_run_ok w title paragraphs payload rest cover flows pictures);
    [|done|done|by rewrite take_ge by lia|lia].
  split; [done|]. split.
  { simpl. rewrite interleave_length by lia. lia. }
  split; [by exists payload, cover|].
  intros i p Hp.
  destruct (Forall2_lookup_l _ _ _ _ _ Hparse Hp) as (flow & Hflow & Hpf).
  destruct (rest !! i) as [pl|] eqn:Hpl.
  2:{ apply lookup_ge_None in Hpl. apply lookup_lt_Some in Hp. lia. }
  destruct (Forall2_lookup_l _ _ _ _ _ Hdecode Hpl) as (picture & Hpicture & Hpp).
  exists flow, pl, picture. replace (i + 1) with (S i) by lia.
  split; [done|]. split; [done|]. split; [done|]. simpl.
  destruct (interleave_lookup flows pictures i flow picture Hflow Hpicture) as [Ht Hi].
  simpl in Ht. rewrite Ht. split; [done|].
  replace (i + (i + 0) + 1) with (2 * i + 1) by lia. done.
Qed.

Lemma create_pdf_book_page_sequence_witness :
  exists doc,
    create_pdf_book (echo_world EmptyString) "Cuento" ["uno"; "dos"]
      [image_1; image_2; image_3] = inr doc
    /\ length doc = 1 + 2 * 2
    /\ (exists payload cover,
          [image_1; image_2; image_3] !! 0 = Some payload
          /\ ImageReader (echo_world EmptyString) payload = inr cover
          /\ doc !! 0 = Some (cover_page "Cuento" cover))
    /\ (forall i p, ["uno"; "dos"] !! i = Some p ->
          exists flow payload picture,
            Paragraph (echo_world EmptyString) p text_style = inr flow
            /\ [image_1; image_2; image_3] !! (i + 1) = Some payload
            /\ ImageReader (echo_world EmptyString) payload = inr picture
            /\ doc !! (1 + 2 * i) = Some (text_page flow)
            /\ doc !! (1 + 2 * i + 1) = Some (illustration_page picture)).
Proof.
  apply (create_pdf_book_page_sequence (echo_world EmptyString) "Cuento" ["uno"; "dos"]
           [image_1; image_2; image_3]).
  - reflexivity.
  - repeat constructor; eexists; reflexivity.
  - repeat constructor; eexists; reflexivity.
Defined.

(** C9. Only the images at indices 0 to N are read: two image sequences
    of length at least N+1 that agree on their first N+1 elements give
    the same result, document or error, and the same canvas; and the
    result with further images is that with the first N+1 alone, so that
    what follows them neither fails the call nor changes its output. *)
Theorem create_pdf_book_reads_prefix (w : World) (title : string)
    (paragraphs : list string) (images1 images2 : list bytes) :
  length paragraphs + 1 <= length images1 ->
  length paragraphs + 1 <= length images2 ->
  take (length paragraphs + 1) images1 = take (length paragraphs + 1) images2 ->
  create_pdf_book_run w title paragraphs images1
    = create_pdf_book_run w title paragraphs images2
  /\ create_pdf_book_run w title paragraphs images1
     = create_pdf_book_run w title paragraphs (take (length paragraphs + 1) images1).
Proof.
  intros _ _ Htake. split.
  - by apply create_pdf_book_run_prefix.
  - apply create_pdf_book_run_prefix. by rewrite take_idemp.
Qed.

Lemma create_pdf_book_reads_prefix_witness :
  create_pdf_book_run (echo_world EmptyString) "Cuento" ["uno"] [image_1; image_2; image_3]
    = create_pdf_book_run (echo_world EmptyString) "Cuento" ["uno"]
        [image_1; image_2; [Byte.x01]; image_1]
  /\ create_pdf_book_run (echo_world EmptyString) "Cuento" ["uno"] [image_1; image_2; image_3]
     = create_pdf_book_run (echo_world EmptyString) "Cuento" ["uno"]
         (take (length ["uno"] + 1) [image_1; image_2; image_3]).
Proof.
  apply (create_pdf_book_reads_prefix (echo_world EmptyString) "Cuento" ["uno"]
           [image_1; image_2; image_3] [image_1; image_2; [Byte.x01]; image_1]).
  - simpl. lia.
  - simpl. lia.
  - reflexivity.
Defined.

(** C5 fails on the code: with no paragraph and two images the book is
    produced, a single cover page. *)
Lemma rejects_miscounted_images_counterexample : ~ rejects_miscounted_images.
Proof.
  intros H.
  destruct (H (echo_world EmptyString) "Cuento" [] [image_1; image_2])
    as (e & c & Hrun & _); [simpl; lia|].
  discriminate Hrun.
Qed.

(** C5, amended.  The layout has no check of its own.  For paragraphs
    that reportlab reads and images of which it reads the first N+1: when
    the images are fewer than the paragraphs plus one, indexing raises
    IndexError and nothing is written to the buffer; when they are more,
    the book is produced, with its 1 + 2*N pages. *)
Theorem create_pdf_book_miscounted_images (w : World) (title : string)
    (paragraphs : list string) (image_data : list bytes) :
  length image_data <> length paragraphs + 1 ->
  Forall (readable w) (take (length paragraphs + 1) image_data) ->
  Forall (well_formed w) paragraphs ->
  (length image_data < length paragraphs + 1
   /\ exists c, create_pdf_book_run w title paragraphs image_data = (inl IndexError, c)
                /\ buffer c = None)
  \/
  (length paragraphs + 1 < length image_data
   /\ exists doc, create_pdf_book w title paragraphs image_data = inr doc
                  /\ length doc = 1 + 2 * length paragraphs).
Proof.
  intros Hne Hread Hwf.
  destruct (decide (length image_data < length paragraphs + 1)) as [Hlt|Hge].
  - left. split; [done|]. rewrite take_ge in Hread by lia.
    destruct image_data as [|payload rest] eqn:Himages.
    { exists new_canvas. by rewrite create_pdf_book_run_eq. }
    destruct (create_pdf_book_run_stops w title paragraphs (payload :: rest))
      as (c & Hrun & Hb & _); try done.
    + by apply Forall_take.
    + by exists c.
  - right. split; [lia|].
    destruct image_data as [|payload rest]; simpl in Hne, Hge; [lia|].
    replace (length paragraphs + 1) with (S (length paragraphs)) in Hread by lia.
    simpl in Hread. apply Forall_cons in Hread as [[cover Hcover] Hread].
    destruct (readable_decodes w (take (length paragraphs) rest) Hread)
      as [pictures Hdecode].
    destruct (well_formed_parses w paragraphs Hwf) as [flows Hparse].
    pose proof (Forall2_length _ _ _ Hdecode) as Hlp.
    pose proof (Forall2_length _ _ _ Hparse) as Hlf.
    rewrite length_take in Hlp.
    eexists. unfold create_pdf_book.
    rewrite (create_pdf_book_run_ok w title paragraphs payload rest cover flows pictures);
      [|done|done|done|lia].
    split; [done|]. simpl. rewrite interleave_length by lia. lia.
Qed.

Lemma create_pdf_book_miscounted_images_witness :
  (length [image_1] < length ["uno"] + 1
   /\ exists c, create_pdf_book_run (echo_world EmptyString) "Cuento" ["uno"] [image_1]
                = (inl IndexError, c)
                /\ buffer c = None)
  \/
  (length ["uno"] + 1 < length [image_1]
   /\ exists doc, create_pdf_book (echo_world EmptyString) "Cuento" ["uno"] [image_1] = inr doc
                  /\ length doc = 1 + 2 * length ["uno"]).
Proof.
  apply (create_pdf_book_miscounted_images (echo_world EmptyString) "Cuento" ["uno"] [image_1]).
  - simpl. lia.
  - repeat constructor; eexists; reflexivity.
  - repeat constructor; eexists; reflexivity.
Defined.
(** ** The fan-out *)

Lemma all_inr_list {T E V : Type} (l : list T) : forall (f : nat -> T -> E + V),
  (forall i t, l !! i = Some t -> exists v, f i t = inr v) ->
  exists vs, length vs = length l
             /\ forall i t, l !! i = Some t -> exists v, vs !! i = Some v /\ f i t = inr v.
Proof.
  induction l as [|t l IH]; intros f Hall.
  - exists []. split; [done|]. intros i t Hi. by rewrite lookup_nil in Hi.
  - destruct (Hall 0 t eq_refl) as [v Hv].
    destruct (IH (fun i => f (S i))) as (vs & Hlen & Hvs).
    { intros i t' Hi. by apply (Hall (S i)). }
    exists (v :: vs). split; [simpl; lia|].
    intros [|i] t' Hi; simpl in Hi.
    + injection Hi as <-. by exists v.
    + by apply Hvs.
Qed.

Lemma collect_Some {A : Type} (results : list A) :
  collect (Some <$> results) = Some results.
Proof.
  induction results as [|v vs IH]; [done|].
  rewrite fmap_cons. cbn [collect]. by rewrite IH.
Qed.

Section Gather.

Context {A : Type} (w : World) (tasks : list (Task A)).

Lemma foldl_complete_Failed e sched :
  foldl (complete w tasks) (Failed e) sched = Failed e.
Proof. induction sched as [|i sched IH]; simpl; done. Qed.

(** While every completing call succeeds, each completion fills the
    slot of its own task and no other. *)
Lemma foldl_complete_fills (results : list A) :
  (forall i t, tasks !! i = Some t ->
     exists v, results !! i = Some v /\ settle w i t = inr v) ->
  forall sched slots,
  exists slots',
    foldl (complete w tasks) (Running slots) sched = Running slots'
    /\ length slots' = length slots
    /\ (forall j, j ∈ sched -> j < length tasks -> j < length slots ->
          slots' !! j = Some (results !! j))
    /\ (forall j, slots !! j = Some (results !! j) ->
          slots' !! j = Some (results !! j)).
Proof.
  intros Hall. induction sched as [|i sched IH]; intros slots.
  - exists slots. simpl. repeat split; try done.
    intros j Hj. by apply elem_of_nil in Hj.
  - cbn [foldl].
    assert (exists slots1, complete w tasks (Running slots) i = Running slots1
              /\ length slots1 = length slots
              /\ (i < length tasks -> i < length slots ->
                    slots1 !! i = Some (results !! i))
              /\ (forall j, slots !! j = Some (results !! j) ->
                    slots1 !! j = Some (results !! j)))
      as (slots1 & -> & Hlen1 & Hi1 & Hkeep1).
    { unfold complete. destruct (tasks !! i) as [t|] eqn:Ht.
      - destruct (Hall i t Ht) as (v & Hv & Hs). rewrite Hs.
        eexists. split; [done|]. split; [by rewrite length_insert|]. split.
        + intros _ Hi. rewrite list_lookup_insert_eq by done. by rewrite Hv.
        + intros j Hj. destruct (decide (i = j)) as [<-|Hne].
          * rewrite list_lookup_insert_eq; [by rewrite Hv|].
            by apply lookup_lt_Some in Hj.
          * by rewrite list_lookup_insert_ne.
      - exists slots. repeat split; try done.
        intros Hi. apply lookup_ge_None in Ht. lia. }
    destruct (IH slots1) as (slots' & -> & Hlen & Hin & Hkeep).
    exists slots'. split; [done|]. split; [lia|]. split.
    + intros j Hj Hjt Hjs. apply elem_of_cons in Hj as [->|Hj].
      * apply Hkeep, Hi1; done.
      * apply Hin; [done|done|lia].
    + intros j Hj. by apply Hkeep, Hkeep1.
Qed.

(** All calls succeed: whatever the order of completion, the results
    come back in the order of the tasks. *)
Lemma gather_all_succeed (results : list A) sched :
  length results = length tasks ->
  (forall i t, tasks !! i = Some t ->
     exists v, results !! i = Some v /\ settle w i t = inr v) ->
  sched ≡ₚ seq 0 (length tasks) ->
  snd (gather w sched tasks) = Returned results.
Proof.
  intros Hlen Hall Hperm. unfold gather. simpl.
  destruct (foldl_complete_fills results Hall sched (replicate (length tasks) None))
    as (slots' & -> & Hlen' & Hin & _).
  rewrite length_replicate in Hlen', Hin.
  assert (slots' = Some <$> results) as ->.
  { apply list_eq. intros j. rewrite list_lookup_fmap.
    destruct (decide (j < length tasks)) as [Hj|Hj].
    - rewrite Hin; [|rewrite Hperm; apply elem_of_seq; lia|done|done].
      destruct (results !! j) eqn:Hr; [done|].
      apply lookup_ge_None in Hr. lia.
    - rewrite !(proj2 (lookup_ge_None _ _)); [done|lia|lia]. }
  by rewrite collect_Some.
Qed.

(** Some completing call fails: the gather raises the exception of a
    failed call, the first one of the schedule. *)
Lemma gather_some_fails sched k t e0 :
  k ∈ sched -> tasks !! k = Some t -> settle w k t = inl e0 ->
  exists j tj e, j ∈ sched /\ tasks !! j = Some tj /\ settle w j tj = inl e
                 /\ snd (gather w sched tasks) = Raised e.
Proof.
  intros Hk Ht Hfail. unfold gather. simpl.
  generalize (replicate (length tasks) (@None A)). 
  induction sched as [|i sched IH]; intros slots; [by apply elem_of_nil in Hk|].
  cbn [foldl]. unfold complete at 2.
  destruct (tasks !! i) as [ti|] eqn:Hti.
  - destruct (settle w i ti) as [e|v] eqn:Hs.
    + exists i, ti, e. rewrite foldl_complete_Failed.
      repeat split; try done. apply elem_of_cons; by left.
    + assert (k ∈ sched) as Hk'.
      { apply elem_of_cons in Hk as [->|Hk]; [|done]. congruence. }
      destruct (IH Hk' (<[i := Some v]> slots)) as (j & tj & e & Hj & Htj & Hsj & Hres).
      exists j, tj, e. repeat split; try done. apply elem_of_cons; by right.
  - assert (k ∈ sched) as Hk'.
    { apply elem_of_cons in Hk as [->|Hk]; [|done]. congruence. }
    destruct (IH Hk' slots) as (j & tj & e & Hj & Htj & Hsj & Hres).
    exists j, tj, e. repeat split; try done. apply elem_of_cons; by right.
Qed.

End Gather.

(** ** The book endpoint *)

Section Book.

Context (w : World) (request : BookRequest).

Lemma map_lookup {T U : Type} (f : T -> U) (l : list T) i :
  map f l !! i = f <$> l !! i.
Proof. revert i; induction l as [|x l IH]; intros [|i]; simpl; auto. Qed.

Lemma image_tasks_lookup i t :
  image_tasks w request !! i = Some t ->
  exists p, scene_prompts request !! i = Some p /\ t = generate_image_data w p.
Proof.
  unfold image_tasks. rewrite map_lookup.
  destruct (scene_prompts request !! i) as [p|]; simpl; [|done].
  intros [= <-]. by exists p.
Qed.

Lemma image_tasks_length :
  length (image_tasks w request) = S (length (paragraphs request)).
Proof. unfold image_tasks. by rewrite length_map. Qed.

Lemma image_outcome_failure i p e :
  image_outcome w i p = inl e ->
  e = mkHTTPException 500 ("Failed to generate image for prompt: " +:+ p).
Proof.
  unfold image_outcome, settle, generate_image_data. simpl.
  destruct (and_then _ _); congruence.
Qed.

(** Every call answers: the fan-out returns the images in the order of
    the scenes, whatever the schedule. *)
Lemma image_data_list_returns (images : list bytes) sched :
  length images = S (length (paragraphs request)) ->
  (forall i p, scene_prompts request !! i = Some p ->
     exists image, images !! i = Some image /\ image_outcome w i p = inr image) ->
  sched ≡ₚ seq 0 (S (length (paragraphs request))) ->
  snd (image_data_list w sched request) = Returned images.
Proof.
  intros Hlen Hall Hperm. unfold image_data_list.
  apply gather_all_succeed.
  - by rewrite image_tasks_length.
  - intros i t Ht. apply image_tasks_lookup in Ht as (p & Hp & ->).
    by apply Hall.
  - by rewrite image_tasks_length.
Qed.

(** Some call fails: the fan-out raises the error of a failed call. *)
Lemma image_data_list_raises sched k p :
  sched ≡ₚ seq 0 (S (length (paragraphs request))) ->
  scene_prompts request !! k = Some p ->
  (exists e, image_outcome w k p = inl e) ->
  exists j q e, scene_prompts request !! j = Some q
                /\ image_outcome w j q = inl e
                /\ snd (image_data_list w sched request) = Raised e.
Proof.
  intros Hperm Hp [e0 He0]. unfold image_data_list.
  destruct (gather_some_fails w (image_tasks w request) sched k
              (generate_image_data w p) e0) as (j & tj & e & Hj & Htj & Hs & Hres).
  - rewrite Hperm. apply elem_of_seq. apply lookup_lt_Some in Hp.
    unfold scene_prompts in Hp. simpl in Hp. lia.
  - unfold image_tasks. by rewrite map_lookup, Hp.
  - done.
  - apply image_tasks_lookup in Htj as (q & Hq & ->).
    by exists j, q, e.
Qed.

Lemma generate_book_snd api_key sched :
  not_configured api_key = false ->
  snd (generate_book api_key w sched request) =
    match snd (image_data_list w sched request) with
    | Pending => Pending
    | Raised e => Raised e
    | Returned images =>
        match create_pdf_book w (title request) (paragraphs request) images with
        | inr pdf_buffer => Returned (pdf_response pdf_buffer)
        | inl e => Raised (book_handler (Py e))
        end
    end.
Proof.
  intros Hkey. unfold generate_book. rewrite Hkey.
  by destruct (image_data_list w sched request) as [calls [images|e|]].
Qed.

End Book.

(** C1. For N paragraphs whose N+1 image calls all answer, the fan-out
    returns exactly N+1 images: the one at position 0 is the answer to the
    cover prompt, the one at position i+1 the answer to paragraph i, and
    the list is the same for every order in which the calls complete. *)
Theorem fan_out_index_aligned (w : World) (sched : list nat) (request : BookRequest) :
  sched ≡ₚ seq 0 (S (length (paragraphs request))) ->
  (forall i p, scene_prompts request !! i = Some p ->
     exists image, image_outcome w i p = inr image) ->
  exists images,
    snd (image_data_list w sched request) = Returned images
    /\ length images = S (length (paragraphs request))
    /\ (exists cover, images !! 0 = Some cover
                      /\ image_outcome w 0 cover_prompt = inr cover)
    /\ (forall i p, paragraphs request !! i = Some p ->
          exists image, images !! (S i) = Some image
                        /\ image_outcome w (S i) p = inr image)
    /\ (forall sched', sched' ≡ₚ sched ->
          snd (image_data_list w sched' request) = Returned images).
Proof.
  intros Hperm Hall.
  destruct (all_inr_list (scene_prompts request) (image_outcome w) Hall)
    as (images & Hlen & Himages).
  assert (length images = S (length (paragraphs request))) as Hlen' by done.
  exists images. split; [by apply image_data_list_returns|].
  split; [done|]. split; [by apply (Himages 0)|].
  split; [intros i p Hp; by apply (Himages (S i))|].
  intros sched' Hperm'. apply image_data_list_returns; try done.
  by rewrite Hperm'.
Qed.

Lemma fan_out_index_aligned_witness :
  exists images,
    snd (image_data_list (echo_world EmptyString) [2; 0; 1] (mkBookRequest "Cuento" ["uno"; "dos"]))
      = Returned images
    /\ length images = 3
    /\ (exists cover, images !! 0 = Some cover
                      /\ image_outcome (echo_world EmptyString) 0 cover_prompt = inr cover)
    /\ (forall i p, ["uno"; "dos"] !! i = Some p ->
          exists image, images !! (S i) = Some image
                        /\ image_outcome (echo_world EmptyString) (S i) p = inr image)
    /\ (forall sched', sched' ≡ₚ [2; 0; 1] ->
          snd (image_data_list (echo_world EmptyString) sched' (mkBookRequest "Cuento" ["uno"; "dos"]))
            = Returned images).
Proof.
  apply (fan_out_index_aligned (echo_world EmptyString) [2; 0; 1]
           (mkBookRequest "Cuento" ["uno"; "dos"])).
  - simpl. solve_Permutation.
  - intros i p _. eexists. reflexivity.
Defined.

(** C3. Whatever the number of paragraphs and whichever image call
    fails, in whatever order the calls complete, the book operation
    fails: it raises an HTTP 500 error, which is the key error or the
    error of a failed image call, and returns no document. *)
Theorem generate_book_all_or_nothing (api_key : option string) (w : World)
    (sched : list nat) (request : BookRequest) (k : nat) (p : string) :
  sched ≡ₚ seq 0 (S (length (paragraphs request))) ->
  scene_prompts request !! k = Some p ->
  (exists e, image_outcome w k p = inl e) ->
  exists e,
    snd (generate_book api_key w sched request) = Raised e
    /\ status_code e = 500
    /\ (e = key_error
        \/ exists j q, scene_prompts request !! j = Some q
                       /\ image_outcome w j q = inl e).
Proof.
  intros Hperm Hp Hfail.
  destruct (not_configured api_key) eqn:Hkey.
  - exists key_error. unfold generate_book. rewrite Hkey. auto.
  - destruct (image_data_list_raises w request sched k p Hperm Hp Hfail)
      as (j & q & e & Hq & He & Hres).
    exists e. rewrite generate_book_snd, Hres by done.
    split; [done|]. split; [|right; by exists j, q].
    by rewrite (image_outcome_failure w j q e He).
Qed.

Lemma generate_book_all_or_nothing_witness :
  exists e,
    snd (generate_book (Some "sk-test") (failing_world 2) [1; 2; 0]
           (mkBookRequest "Cuento" ["uno"; "dos"])) = Raised e
    /\ status_code e = 500
    /\ (e = key_error
        \/ exists j q, scene_prompts (mkBookRequest "Cuento" ["uno"; "dos"]) !! j = Some q
                       /\ image_outcome (failing_world 2) j q = inl e).
Proof.
  apply (generate_book_all_or_nothing (Some "sk-test") (failing_world 2) [1; 2; 0]
           (mkBookRequest "Cuento" ["uno"; "dos"]) 2 "dos").
  - simpl. solve_Permutation.
  - reflexivity.
  - eexists. reflexivity.
Defined.

(** C6. The image calls of a book are the N+1 calls of its scenes, in
    order, and the prompt of each is the same preamble ART_STYLE_PROMPT,
    two newlines and "**Scene:** ", followed by the scene. *)
Theorem image_calls_share_preamble (api_key : option string) (w : World)
    (sched : list nat) (request : BookRequest) :
  not_configured api_key = false ->
  fst (generate_book api_key w sched request)
    = map image_call (cover_prompt :: paragraphs request)
  /\ length (fst (generate_book api_key w sched request))
     = S (length (paragraphs request)).
Proof.
  intros Hkey. unfold generate_book. rewrite Hkey.
  unfold image_data_list, gather, image_tasks, scene_prompts. simpl.
  split.
  - f_equal. rewrite map_map. done.
  - by rewrite !length_map.
Qed.

Lemma image_calls_share_preamble_witness :
  fst (generate_book (Some "sk-test") (echo_world EmptyString) [0; 1]
         (mkBookRequest "Cuento" ["uno"]))
    = map image_call (cover_prompt :: ["uno"])
  /\ length (fst (generate_book (Some "sk-test") (echo_world EmptyString) [0; 1]
                    (mkBookRequest "Cuento" ["uno"])))
     = 2.
Proof.
  apply (image_calls_share_preamble (Some "sk-test") (echo_world EmptyString) [0; 1]
           (mkBookRequest "Cuento" ["uno"])).
  reflexivity.
Defined.

(** C7 fails on the code: the error carries the text of the scene, not
    its index.  With twice the same paragraph, the failure of the second
    call and that of the third give the same error, so that no reading of
    the error tells the index. *)
Lemma failure_names_index_counterexample :
  ~ exists index_of, failure_names_index index_of.
Proof.
  intros [index_of H].
  pose (request := mkBookRequest "Cuento" ["uno"; "uno"]).
  pose (e := mkHTTPException 500 "Failed to generate image for prompt: uno").
  assert (index_of e = 1) as H1.
  { apply (H (Some "sk-test") (failing_world 1) [0; 1; 2] request 1 "uno").
    - reflexivity.
    - simpl. solve_Permutation.
    - reflexivity.
    - eexists. reflexivity.
    - intros j q Hj _. eexists. unfold image_outcome, settle. simpl.
      rewrite bool_decide_eq_false_2 by done. reflexivity.
    - reflexivity. }
  assert (index_of e = 2) as H2.
  { apply (H (Some "sk-test") (failing_world 2) [0; 1; 2] request 2 "uno").
    - reflexivity.
    - simpl. solve_Permutation.
    - reflexivity.
    - eexists. reflexivity.
    - intros j q Hj _. eexists. unfold image_outcome, settle. simpl.
      rewrite bool_decide_eq_false_2 by done. reflexivity.
    - reflexivity. }
  congruence.
Qed.

(** C7, amended.  A failing image call raises HTTP 500 with the detail
    "Failed to generate image for prompt: " followed by the text of its
    scene prompt; when it is the only call that fails, this is the error
    of the book operation, in whatever order the calls complete. *)
Theorem failure_names_prompt (api_key : option string) (w : World)
    (sched : list nat) (request : BookRequest) (k : nat) (p : string) :
  not_configured api_key = false ->
  sched ≡ₚ seq 0 (S (length (paragraphs request))) ->
  scene_prompts request !! k = Some p ->
  (exists e, image_outcome w k p = inl e) ->
  (forall j q, j <> k -> scene_prompts request !! j = Some q ->
               exists image, image_outcome w j q = inr image) ->
  let e := mkHTTPException 500 ("Failed to generate image for prompt: " +:+ p) in
  image_outcome w k p = inl e
  /\ snd (generate_book api_key w sched request) = Raised e.
Proof.
  intros Hkey Hperm Hp Hfail Hothers e.
  assert (image_outcome w k p = inl e) as Hk.
  { destruct Hfail as [e' He']. by rewrite He', (image_outcome_failure w k p e' He'). }
  split; [done|].
  destruct (image_data_list_raises w request sched k p Hperm Hp Hfail)
    as (j & q & e' & Hq & He' & Hres).
  rewrite generate_book_snd, Hres by done.
  destruct (decide (j = k)) as [->|Hne].
  - congruence.
  - destruct (Hothers j q Hne Hq) as [image Himage]. congruence.
Qed.

Lemma failure_names_prompt_witness :
  let e := mkHTTPException 500 ("Failed to generate image for prompt: " +:+ "dos") in
  image_outcome (failing_world 2) 2 "dos" = inl e
  /\ snd (generate_book (Some "sk-test") (failing_world 2) [1; 2; 0]
            (mkBookRequest "Cuento" ["uno"; "dos"])) = Raised e.
Proof.
  apply (failure_names_prompt (Some "sk-test") (failing_world 2) [1; 2; 0]
           (mkBookRequest "Cuento" ["uno"; "dos"]) 2 "dos").
  - reflexivity.
  - simpl. solve_Permutation.
  - reflexivity.
  - eexists. reflexivity.
  - intros j q Hj _. eexists. unfold image_outcome, settle. simpl.
    rewrite bool_decide_eq_false_2 by done. reflexivity.
Defined.

(** ** The story endpoint *)

(** C4 fails on the code: a well-formed answer with three paragraphs is
    returned as it came. *)
Lemma returns_story_or_fails_counterexample : ~ returns_story_or_fails.
Proof.
  intros H.
  specialize (H (Some "sk-test") (echo_world sample_text)
                (mkStoryRequest "un barrilete que vuela muy alto")).
  assert (snd (generate_story (Some "sk-test") (echo_world sample_text)
                 (mkStoryRequest "un barrilete que vuela muy alto"))
          = inr sample_text) as Hret by reflexivity.
  rewrite Hret in H.
  destruct H as (s & Hdecode & Hfive & _); [done|].
  vm_compute in Hdecode. injection Hdecode as <-.
  discriminate Hfive.
Qed.

(** C4, amended.  With the key configured, for every theme,
    [generate_story] returns the content of the first choice of the
    model's answer, whatever that text is; it fails with HTTP 500 when
    the call raises or the answer has no choice. *)
Theorem generate_story_returns_answer (api_key : option string) (w : World)
    (request : StoryRequest) :
  not_configured api_key = false ->
  (forall response first rest,
     chat_completions_create w (story_call request) = inr response ->
     choices response = first :: rest ->
     snd (generate_story api_key w request) = inr (content (message first)))
  /\ (forall e,
        chat_completions_create w (story_call request) = inl e ->
        snd (generate_story api_key w request)
          = inl (mkHTTPException 500 ("Failed to generate story. Error: " +:+ str e)))
  /\ (forall response,
        chat_completions_create w (story_call request) = inr response ->
        choices response = [] ->
        snd (generate_story api_key w request)
          = inl (mkHTTPException 500
                   "Failed to generate story. Error: list index out of range")).
Proof.
  intros Hkey. unfold generate_story. rewrite Hkey. simpl.
  repeat split.
  - intros response first rest -> Hc. unfold getitem. simpl. by rewrite Hc.
  - by intros e ->.
  - intros response -> Hc. unfold getitem. simpl. by rewrite Hc.
Qed.

Lemma generate_story_returns_answer_witness :
  snd (generate_story (Some "sk-test") (echo_world "hola")
         (mkStoryRequest "un barrilete que vuela muy alto")) = inr "hola".
Proof.
  apply (proj1 (generate_story_returns_answer (Some "sk-test") (echo_world "hola")
                  (mkStoryRequest "un barrilete que vuela muy alto") eq_refl)
           (mkChatCompletion [mkChoice (mkMessage "assistant" "hola")])
           (mkChoice (mkMessage "assistant" "hola")) []).
  - reflexivity.
  - reflexivity.
Defined.

(** C8 fails on the code: with an empty theme the call is made and its
    answer returned. *)
Lemma rejects_empty_theme_counterexample : ~ rejects_empty_theme.
Proof.
  intros H.
  destruct (H (Some "sk-test") (echo_world sample_text) (mkStoryRequest EmptyString))
    as [Hcalls _]; [done|].
  discriminate Hcalls.
Qed.

(** C8, amended.  With the key configured, an empty theme is not
    refused: exactly one text-generation call is made, its user message
    being "The theme of the story is: " with nothing after it, and the
    content of the first choice of its answer is returned. *)
Theorem empty_theme_is_forwarded (api_key : option string) (w : World)
    (request : StoryRequest) :
  not_configured api_key = false ->
  theme request = EmptyString ->
  fst (generate_story api_key w request) = [ChatCompletionsCreate (story_call request)]
  /\ messages (story_call request) !! 1
     = Some (mkMessage "user" "The theme of the story is: ")
  /\ (forall response first rest,
        chat_completions_create w (story_call request) = inr response ->
        choices response = first :: rest ->
        snd (generate_story api_key w request) = inr (content (message first))).
Proof.
  intros Hkey Htheme.
  split; [unfold generate_story; by rewrite Hkey|].
  split; [unfold story_call, user_prompt; simpl; by rewrite Htheme|].
  unfold generate_story. rewrite Hkey. simpl.
  intros response first rest -> Hc. unfold getitem. simpl. by rewrite Hc.
Qed.

Lemma empty_theme_is_forwarded_witness :
  fst (generate_story (Some "sk-test") (echo_world "hola") (mkStoryRequest EmptyString))
    = [ChatCompletionsCreate (story_call (mkStoryRequest EmptyString))]
  /\ messages (story_call (mkStoryRequest EmptyString)) !! 1
     = Some (mkMessage "user" "The theme of the story is: ")
  /\ (forall response first rest,
        chat_completions_create (echo_world "hola") (story_call (mkStoryRequest EmptyString))
          = inr response ->
        choices response = first :: rest ->
        snd (generate_story (Some "sk-test") (echo_world "hola") (mkStoryRequest EmptyString))
          = inr (content (message first))).
Proof.
  apply (empty_theme_is_forwarded (Some "sk-test") (echo_world "hola") (mkStoryRequest EmptyString)).
  - reflexivity.
  - reflexivity.
Defined.

(** ** The API key *)

(** C10, on the code.  In a process started without OPENAI_API_KEY the
    module reads None and builds the client with it; when the constructor
    refuses a missing key, as that of the openai library does, the import
    raises its error and neither operation is ever served, so that no
    request is answered HTTP 500.  The guards of the two handlers, which
    answer HTTP 500 with no call made and nothing built for a key that is
    None, are never reached. *)
Theorem import_stops_without_key (w : World) (environ : gmap string string)
    (sched : list nat) (story_request : StoryRequest) (book_request : BookRequest)
    (e : py_error) :
  environ !! "OPENAI_API_KEY" = None ->
  AsyncOpenAI w None = inl e ->
  import_main w environ = inl e
  /\ serve_story w environ story_request = inl e
  /\ serve_book w environ sched book_request = inl e
  /\ generate_story None w story_request = ([], inl key_error)
  /\ generate_book None w sched book_request = ([], Raised key_error).
Proof.
  intros Henv Hctor.
  assert (import_main w environ = inl e) as Himport.
  { unfold import_main, getenv. by rewrite Henv, Hctor. }
  unfold serve_story, serve_book. by rewrite !Himport.
Qed.

Lemma import_stops_without_key_witness :
  let e := OpenAIError "The api_key client option must be set either by passing api_key to the client or by setting the OPENAI_API_KEY environment variable" in
  import_main (echo_world EmptyString) ∅ = inl e
  /\ serve_story (echo_world EmptyString) ∅ (mkStoryRequest "un barrilete") = inl e
  /\ serve_book (echo_world EmptyString) ∅ [0; 1] (mkBookRequest "Cuento" ["uno"]) = inl e
  /\ generate_story None (echo_world EmptyString) (mkStoryRequest "un barrilete")
     = ([], inl key_error)
  /\ generate_book None (echo_world EmptyString) [0; 1] (mkBookRequest "Cuento" ["uno"])
     = ([], Raised key_error).
Proof.
  apply (import_stops_without_key (echo_world EmptyString) ∅ [0; 1]
           (mkStoryRequest "un barrilete") (mkBookRequest "Cuento" ["uno"])).
  - reflexivity.
  - reflexivity.
Defined.

(** * Further properties of the code *)

(** ** The layout, continued *)

Lemma read_body_interleave (paragraphs : list string) : forall (images : list bytes),
  length paragraphs <= length images ->
  read_body (interleave paragraphs images)
    = Some (paragraphs, take (length paragraphs) images).
Proof.
  induction paragraphs as [|p ps IH]; intros [|image images] Hlen; simpl in *;
    try done; try lia.
  rewrite IH by lia. done.
Qed.

Lemma interleave_app (paragraphs more : list string) : forall (images : list bytes),
  length paragraphs <= length images ->
  interleave (paragraphs ++ more) images
    = interleave paragraphs images ++ interleave more (drop (length paragraphs) images).
Proof.
  induction paragraphs as [|p ps IH]; intros images Hlen; simpl in *; [done|].
  destruct images as [|image images]; simpl in *; [lia|].
  rewrite IH by lia. done.
Qed.

Lemma create_pdf_book_inr (w : World) title paragraphs image_data doc :
  create_pdf_book w title paragraphs image_data = inr doc ->
  exists payload rest cover flows pictures,
    image_data = payload :: rest
    /\ ImageReader w payload = inr cover
    /\ parses w paragraphs flows
    /\ decodes w (take (length paragraphs) rest) pictures
    /\ length paragraphs <= length rest
    /\ doc = cover_page title cover :: interleave flows pictures.
Proof.
  unfold create_pdf_book.
  destruct (create_pdf_book_run w title paragraphs image_data) as [r c] eqn:Hrun.
  simpl. intros ->.
  apply create_pdf_book_run_inr in Hrun
    as (payload & rest & cover & flows & pictures & H1 & H2 & H3 & H4 & H5 & H6 & _).
  by exists payload, rest, cover, flows, pictures.
Qed.

(** X1. A document that the layout returns has 1 + 2*N pages and reads
    back, page by page, as the title, the N paragraphs as reportlab read
    them, and the pictures it read from the first N+1 images, all in
    order: nothing is lost, merged or reordered. *)
Theorem read_book_create_pdf_book (w : World) (title : string)
    (paragraphs : list string) (image_data : list bytes) (doc : document) :
  create_pdf_book w title paragraphs image_data = inr doc ->
  length doc = 1 + 2 * length paragraphs
  /\ exists flows pictures,
       parses w paragraphs flows
       /\ decodes w (take (length paragraphs + 1) image_data) pictures
       /\ read_book doc = Some (title, flows, pictures).
Proof.
  intros Hdoc.
  apply create_pdf_book_inr in Hdoc
    as (payload & rest & cover & flows & pictures & -> & Hcover & Hparse & Hdecode
        & Hlen & ->).
  pose proof (Forall2_length _ _ _ Hdecode) as Hlp.
  pose proof (Forall2_length _ _ _ Hparse) as Hlf.
  rewrite length_take in Hlp.
  split.
  { simpl. rewrite interleave_length by lia. lia. }
  exists flows, (cover :: pictures). split; [done|]. split.
  { replace (length paragraphs + 1) with (S (length paragraphs)) by lia.
    simpl. by constructor. }
  simpl. rewrite read_body_interleave by lia.
  by rewrite take_ge by lia.
Qed.

Lemma read_book_create_pdf_book_witness :
  length [cover_page "Cuento" image_1; text_page "uno"; illustration_page image_2]
    = 1 + 2 * length ["uno"]
  /\ exists flows pictures,
       parses (echo_world EmptyString) ["uno"] flows
       /\ decodes (echo_world EmptyString)
            (take (length ["uno"] + 1) [image_1; image_2; image_3]) pictures
       /\ read_book [cover_page "Cuento" image_1; text_page "uno"; illustration_page image_2]
          = Some ("Cuento", flows, pictures).
Proof.
  apply (read_book_create_pdf_book (echo_world EmptyString) "Cuento" ["uno"]
           [image_1; image_2; image_3]).
  reflexivity.
Defined.



(** X3. More paragraphs only add pages at the end: when the book of
    [paragraphs ++ more] is produced, so is the book of [paragraphs] from
    the same images, and it is the first 1 + 2*N pages of the longer
    book, which has two more pages for each paragraph of [more]. *)
Theorem create_pdf_book_app (w : World) (title : string) (paragraphs more : list string)
    (image_data : list bytes) (doc' : document) :
  create_pdf_book w title (paragraphs ++ more) image_data = inr doc' ->
  exists doc,
    create_pdf_book w title paragraphs image_data = inr doc
    /\ doc = take (1 + 2 * length paragraphs) doc'
    /\ length doc' = length doc + 2 * length more.
Proof.
  intros Hdoc.
  apply create_pdf_book_inr in Hdoc
    as (payload & rest & cover & flows & pictures & -> & Hcover & Hparse & Hdecode
        & Hlen & ->).
  rewrite length_app in Hdecode, Hlen.
  apply Forall2_app_inv_l in Hparse as (flows1 & flows2 & Hparse1 & Hparse2 & ->).
  pose proof (Forall2_length _ _ _ Hdecode) as Hlp.
  pose proof (Forall2_length _ _ _ Hparse1) as Hlf1.
  pose proof (Forall2_length _ _ _ Hparse2) as Hlf2.
  rewrite length_take in Hlp.
  assert (decodes w (take (length paragraphs) rest) (take (length paragraphs) pictures))
    as Hdecode1.
  { apply (Forall2_take _ _ _ (length paragraphs)) in Hdecode.
    rewrite take_take in Hdecode.
    by replace (length paragraphs `min` (length paragraphs + length more))
      with (length paragraphs) in Hdecode by lia. }
  eexists. unfold create_pdf_book.
  rewrite (create_pdf_book_run_ok w title paragraphs payload rest cover flows1
             (take (length paragraphs) pictures)); [|done|done|done|lia].
  split; [done|].
  rewrite interleave_app by lia.
  rewrite <- (interleave_take flows1 pictures), <- Hlf1.
  assert (length (interleave flows1 (take (length paragraphs) pictures))
          = 2 * length paragraphs) as Hl1.
  { rewrite interleave_length; rewrite ?length_take; lia. }
  split.
  - simpl. f_equal. by rewrite take_app_length'.
  - simpl. rewrite length_app, Hl1, interleave_length; rewrite ?length_drop; lia.
Qed.

Lemma create_pdf_book_app_witness :
  exists doc,
    create_pdf_book (echo_world EmptyString) "Cuento" ["uno"] [image_1; image_2; image_3]
      = inr doc
    /\ doc = take (1 + 2 * length ["uno"])
               [cover_page "Cuento" image_1; text_page "uno"; illustration_page image_2;
                text_page "dos"; illustration_page image_3]
    /\ length [cover_page "Cuento" image_1; text_page "uno"; illustration_page image_2;
               text_page "dos"; illustration_page image_3]
       = length doc + 2 * length ["dos"].
Proof.
  apply (create_pdf_book_app (echo_world EmptyString) "Cuento" ["uno"] ["dos"]
           [image_1; image_2; image_3]).
  reflexivity.
Defined.

(** ** The fan-out, continued *)

Lemma all_inr_or_inl {T E V : Type} (l : list T) : forall (f : nat -> T -> E + V),
  (forall i t, l !! i = Some t -> exists v, f i t = inr v)
  \/ (exists i t e, l !! i = Some t /\ f i t = inl e).
Proof.
  induction l as [|t l IH]; intros f.
  - left. intros i t Hi. by rewrite lookup_nil in Hi.
  - destruct (f 0 t) as [e|v] eqn:H0; [right; by exists 0, t, e|].
    destruct (IH (fun i => f (S i))) as [Hall|(i & t' & e & Hi & He)].
    + left. intros [|i] t' Hi; simpl in Hi.
      * injection Hi as <-. by exists v.
      * by apply Hall.
    + right. by exists (S i), t', e.
Qed.

Lemma collect_inv {A : Type} (slots : list (option A)) : forall results,
  collect slots = Some results -> slots = Some <$> results.
Proof.
  induction slots as [|[v|] slots IH]; intros results Hc; simpl in Hc.
  - by injection Hc as <-.
  - destruct (collect slots) as [vs|]; simpl in Hc; [|done].
    injection Hc as <-. by rewrite (IH vs eq_refl).
  - done.
Qed.

Section GatherSound.

Context {A : Type} (w : World) (tasks : list (Task A)).

Lemma foldl_complete_sound sched : forall slots slots',
  slots_sound w tasks slots ->
  foldl (complete w tasks) (Running slots) sched = Running slots' ->
  length slots' = length slots /\ slots_sound w tasks slots'.
Proof.
  induction sched as [|i sched IH]; intros slots slots' Hsound Hfold.
  - simpl in Hfold. by injection Hfold as <-.
  - cbn [foldl] in Hfold. unfold complete at 2 in Hfold.
    destruct (tasks !! i) as [t|] eqn:Ht; [|by apply IH].
    destruct (settle w i t) as [e|v] eqn:Hs.
    { by rewrite foldl_complete_Failed in Hfold. }
    apply IH in Hfold as [Hlen Hs']; [by rewrite length_insert in Hlen|].
    intros j v' Hj. destruct (decide (i = j)) as [<-|Hne].
    + assert (i < length slots) as Hi.
      { apply lookup_lt_Some in Hj. by rewrite length_insert in Hj. }
      rewrite list_lookup_insert_eq in Hj by done.
      injection Hj as <-. by exists t.
    + rewrite list_lookup_insert_ne in Hj by done. by apply Hsound.
Qed.

(** Whatever the schedule, a gather that returns gives one result per
    task, each the result of the task at its position. *)
Lemma gather_returned sched results :
  snd (gather w sched tasks) = Returned results ->
  length results = length tasks
  /\ forall i t, tasks !! i = Some t ->
       exists v, results !! i = Some v /\ settle w i t = inr v.
Proof.
  unfold gather. simpl.
  destruct (foldl _ _ sched) as [slots'|e] eqn:Hfold; [|done].
  destruct (collect slots') as [vs|] eqn:Hc; [|done].
  intros [= ->]. apply collect_inv in Hc as ->.
  apply foldl_complete_sound in Hfold as [Hlen Hsound].
  2:{ intros j v Hj. apply lookup_replicate in Hj as [? _]. done. }
  rewrite length_fmap, length_replicate in Hlen.
  split; [done|]. intros i t Ht.
  destruct (results !! i) as [v|] eqn:Hv.
  2:{ apply lookup_ge_None in Hv. apply lookup_lt_Some in Ht. lia. }
  exists v. split; [done|].
  destruct (Hsound i v) as (t' & Ht' & Hs).
  { by rewrite list_lookup_fmap, Hv. }
  congruence.
Qed.

Lemma foldl_complete_running pre : forall slots,
  (forall j tj, j ∈ pre -> tasks !! j = Some tj -> exists v, settle w j tj = inr v) ->
  exists slots', foldl (complete w tasks) (Running slots) pre = Running slots'.
Proof.
  induction pre as [|i pre IH]; intros slots Hpre; [by exists slots|].
  cbn [foldl].
  assert (forall j tj, j ∈ pre -> tasks !! j = Some tj ->
                       exists v, settle w j tj = inr v) as Hpre'.
  { intros j tj Hj. apply Hpre. apply elem_of_cons. by right. }
  unfold complete at 2.
  destruct (tasks !! i) as [ti|] eqn:Hti; [|by apply IH].
  destruct (Hpre i ti) as [v ->]; [apply elem_of_cons; by left|done|].
  by apply IH.
Qed.

(** The first failure decides: once the calls completing before that of
    task [k] have succeeded and the call of [k] fails, the gather raises
    its error, whatever completes later. *)
Lemma gather_first_failure pre k post t e :
  (forall j tj, j ∈ pre -> tasks !! j = Some tj -> exists v, settle w j tj = inr v) ->
  tasks !! k = Some t -> settle w k t = inl e ->
  snd (gather w (pre ++ k :: post) tasks) = Raised e.
Proof.
  intros Hpre Ht Hs. unfold gather. simpl. rewrite foldl_app.
  destruct (foldl_complete_running pre (replicate (length tasks) None) Hpre)
    as [slots' ->].
  cbn [foldl]. unfold complete at 2. rewrite Ht, Hs.
  by rewrite foldl_complete_Failed.
Qed.

(** When every call completes, the gather returns or raises. *)
Lemma gather_settles sched :
  sched ≡ₚ seq 0 (length tasks) ->
  snd (gather w sched tasks) <> Pending.
Proof.
  intros Hperm.
  destruct (all_inr_or_inl tasks (settle w)) as [Hall|(k & t & e & Ht & He)].
  - destruct (all_inr_list tasks (settle w) Hall) as (results & Hlen & Hres).
    by rewrite (gather_all_succeed w tasks results sched Hlen Hres Hperm).
  - destruct (gather_some_fails w tasks sched k t e) as (j & tj & e' & _ & _ & _ & ->);
      try done.
    rewrite Hperm. apply elem_of_seq. apply lookup_lt_Some in Ht. lia.
Qed.

End GatherSound.

Lemma gather_raised {A : Type} (w : World) (tasks : list (Task A)) sched e :
  snd (gather w sched tasks) = Raised e ->
  exists j t, j ∈ sched /\ tasks !! j = Some t /\ settle w j t = inl e.
Proof.
  unfold gather. simpl. generalize (replicate (length tasks) (@None A)).
  induction sched as [|i sched IH]; intros slots.
  - simpl. by destruct (collect slots).
  - cbn [foldl]. unfold complete at 2.
    assert (forall slots1,
              match foldl (complete w tasks) (Running slots1) sched with
              | Running slots' =>
                  match collect slots' with
                  | Some results => Returned results
                  | None => Pending
                  end
              | Failed e' => Raised e'
              end = Raised e ->
              exists j t, j ∈ i :: sched /\ tasks !! j = Some t /\ settle w j t = inl e)
      as Hrest.
    { intros slots1 H. destruct (IH slots1 H) as (j & t & Hj & Ht & Hs).
      exists j, t. repeat split; try done. apply elem_of_cons. by right. }
    destruct (tasks !! i) as [ti|] eqn:Hti; [|by apply Hrest].
    destruct (settle w i ti) as [e'|v] eqn:Hs; [|by apply Hrest].
    rewrite foldl_complete_Failed. intros [= ->].
    exists i, ti. repeat split; try done. apply elem_of_cons. by left.
Qed.

(** ** The book endpoint, continued *)

Lemma append_cancel (s p q : string) : s +:+ p = s +:+ q -> p = q.
Proof. induction s as [|a s IH]; simpl; [done|]. intros [= H]. by apply IH. Qed.

Section BookSound.

Context (w : World) (request : BookRequest).

Lemma image_data_list_sound sched images :
  snd (image_data_list w sched request) = Returned images ->
  length images = S (length (paragraphs request))
  /\ forall i p, scene_prompts request !! i = Some p ->
       exists image, images !! i = Some image /\ image_outcome w i p = inr image.
Proof.
  unfold image_data_list. intros Hret.
  apply gather_returned in Hret as [Hlen Hres].
  rewrite image_tasks_length in Hlen. split; [done|].
  intros i p Hp. apply (Hres i (generate_image_data w p)).
  unfold image_tasks. by rewrite map_lookup, Hp.
Qed.

(** What the operation returns is a document laid out from the images
    of a fan-out that returned. *)
Lemma generate_book_returned_inv api_key sched response :
  snd (generate_book api_key w sched request) = Returned response ->
  exists images doc,
    not_configured api_key = false
    /\ snd (image_data_list w sched request) = Returned images
    /\ create_pdf_book w (title request) (paragraphs request) images = inr doc
    /\ response = pdf_response doc.
Proof.
  destruct (not_configured api_key) eqn:Hkey.
  { unfold generate_book. by rewrite Hkey. }
  rewrite generate_book_snd by done.
  destruct (snd (image_data_list w sched request)) as [images|e|]; try done.
  destruct (create_pdf_book w (title request) (paragraphs request) images)
    as [e|doc] eqn:Hdoc; [done|].
  intros [= <-]. by exists images, doc.
Qed.

(** The answers of the calls, when they all answer with images that
    reportlab reads. *)
Lemma answers_readable :
  (forall i p, scene_prompts request !! i = Some p ->
     exists image, image_outcome w i p = inr image /\ readable w image) ->
  exists images,
    length images = S (length (paragraphs request))
    /\ (forall i p, scene_prompts request !! i = Some p ->
          exists image, images !! i = Some image /\ image_outcome w i p = inr image)
    /\ Forall (readable w) images.
Proof.
  intros Hall.
  destruct (all_inr_list (scene_prompts request) (image_outcome w))
    as (images & Hlen & Himages).
  { intros i p Hp. destruct (Hall i p Hp) as (image & Himage & _). by exists image. }
  exists images. split; [done|]. split; [done|].
  apply Forall_lookup. intros i image Hi.
  destruct (scene_prompts request !! i) as [p|] eqn:Hp.
  2:{ apply lookup_ge_None in Hp. apply lookup_lt_Some in Hi. lia. }
  destruct (Himages i p Hp) as (image' & Hi' & Ho).
  destruct (Hall i p Hp) as (image'' & Ho' & Hr).
  congruence.
Qed.

End BookSound.

(** X4. Whatever the order of completion, even one that repeats or
    misses calls, a fan-out that returns gives exactly N+1 images, and the
    image at each position is the answer to the call of the scene at that
    position: a returned list is never short, shifted or mixed up. *)
Theorem image_data_list_aligned (w : World) (sched : list nat) (request : BookRequest)
    (images : list bytes) :
  snd (image_data_list w sched request) = Returned images ->
  length images = S (length (paragraphs request))
  /\ forall i p, scene_prompts request !! i = Some p ->
       exists image, images !! i = Some image /\ image_outcome w i p = inr image.
Proof. apply image_data_list_sound. Qed.

Lemma image_data_list_aligned_witness :
  length [list_byte_of_string (full_prompt cover_prompt);
          list_byte_of_string (full_prompt "uno")] = 2
  /\ forall i p, scene_prompts (mkBookRequest "Cuento" ["uno"]) !! i = Some p ->
       exists image,
         [list_byte_of_string (full_prompt cover_prompt);
          list_byte_of_string (full_prompt "uno")] !! i = Some image
         /\ image_outcome (echo_world EmptyString) i p = inr image.
Proof.
  apply (image_data_list_aligned (echo_world EmptyString) [1; 0; 1]
           (mkBookRequest "Cuento" ["uno"])).
  reflexivity.
Defined.

(** X5. A response of the book operation is a PDF (media type
    application/pdf, an attachment named libro_de_cuentos.pdf) of
    1 + 2*N pages which reads back as the title, the paragraphs as
    reportlab read them, and the pictures it read from the answers of the
    N+1 image calls, in the order of the scenes, whatever the order in
    which the calls completed. *)
Theorem generate_book_returns_book (api_key : option string) (w : World)
    (sched : list nat) (request : BookRequest) (response : StreamingResponse) :
  snd (generate_book api_key w sched request) = Returned response ->
  media_type response = "application/pdf"
  /\ headers response
     = [("Content-Disposition", "attachment; filename=libro_de_cuentos.pdf")]
  /\ length (body response) = 1 + 2 * length (paragraphs request)
  /\ exists images flows pictures,
       (forall i p, scene_prompts request !! i = Some p ->
          exists image, images !! i = Some image /\ image_outcome w i p = inr image)
       /\ decodes w images pictures
       /\ parses w (paragraphs request) flows
       /\ read_book (body response) = Some (title request, flows, pictures).
Proof.
  intros Hret.
  apply generate_book_returned_inv in Hret as (images & doc & Hkey & Hfan & Hdoc & ->).
  apply image_data_list_sound in Hfan as [Hlen Himages].
  split; [done|]. split; [done|]. simpl.
  apply create_pdf_book_inr in Hdoc
    as (payload & rest & cover & flows & pictures & -> & Hcover & Hparse & Hdecode
        & Hle & ->).
  simpl in Hlen.
  pose proof (Forall2_length _ _ _ Hdecode) as Hlp.
  pose proof (Forall2_length _ _ _ Hparse) as Hlf.
  rewrite take_ge in Hdecode, Hlp by lia.
  split.
  { simpl. rewrite interleave_length by lia. lia. }
  exists (payload :: rest), flows, (cover :: pictures).
  split; [done|]. split; [by constructor|]. split; [done|].
  simpl. rewrite read_body_interleave by lia.
  by rewrite take_ge by lia.
Qed.

Lemma generate_book_returns_book_witness :
  let response :=
    pdf_response [cover_page "Cuento" image_1; text_page "uno"; illustration_page image_1] in
  media_type response = "application/pdf"
  /\ headers response
     = [("Content-Disposition", "attachment; filename=libro_de_cuentos.pdf")]
  /\ length (body response) = 1 + 2 * length ["uno"]
  /\ exists images flows pictures,
       (forall i p, scene_prompts (mkBookRequest "Cuento" ["uno"]) !! i = Some p ->
          exists image, images !! i = Some image
                        /\ image_outcome studio_world i p = inr image)
       /\ decodes studio_world images pictures
       /\ parses studio_world ["uno"] flows
       /\ read_book (body response) = Some ("Cuento", flows, pictures).
Proof.
  apply (generate_book_returns_book (Some "sk-test") studio_world [1; 0]
           (mkBookRequest "Cuento" ["uno"])).
  reflexivity.
Defined.

(** X6. Whatever the schedule, an error of the book operation has status
    500 and is one of three: the key error; the error of an image call
    that completed and failed, with detail "Failed to generate image for
    prompt: " and the scene; or, once every call has answered, "Failed to
    generate the book. Error: " followed by the error reportlab raised on
    one of the answers or on one of the paragraphs.  Indexing never fails
    inside the operation: the fan-out hands the layout its N+1 images. *)
Theorem generate_book_errors (api_key : option string) (w : World)
    (sched : list nat) (request : BookRequest) (e : HTTPException) :
  snd (generate_book api_key w sched request) = Raised e ->
  status_code e = 500
  /\ (e = key_error
      \/ (exists j q, j ∈ sched
                      /\ scene_prompts request !! j = Some q
                      /\ image_outcome w j q = inl e
                      /\ detail e = "Failed to generate image for prompt: " +:+ q)
      \/ (exists e',
            detail e = "Failed to generate the book. Error: " +:+ str e'
            /\ ((exists p, p ∈ paragraphs request /\ Paragraph w p text_style = inl e')
                \/ (exists i p image,
                      scene_prompts request !! i = Some p
                      /\ image_outcome w i p = inr image
                      /\ ImageReader w image = inl e')))).
Proof.
  destruct (not_configured api_key) eqn:Hkey.
  { unfold generate_book. rewrite Hkey. simpl. intros [= <-]. auto. }
  rewrite generate_book_snd by done.
  destruct (snd (image_data_list w sched request)) as [images|e'|] eqn:Hfan; [| |done].
  - apply image_data_list_sound in Hfan as [Hlen Himages].
    unfold create_pdf_book.
    destruct (create_pdf_book_run w (title request) (paragraphs request) images)
      as [[e'|doc] c] eqn:Hrun; [|done].
    simpl. intros [= <-]. split; [done|]. right. right. exists e'. split; [done|].
    apply create_pdf_book_run_inl in Hrun as [Hp|(payload & Hin & Hpayload)];
      [by left| |lia].
    right. rewrite take_ge in Hin by lia.
    apply list_elem_of_lookup in Hin as [i Hi].
    destruct (scene_prompts request !! i) as [p|] eqn:Hp.
    2:{ apply lookup_ge_None in Hp. apply lookup_lt_Some in Hi.
        unfold scene_prompts in Hp. simpl in Hp. lia. }
    destruct (Himages i p Hp) as (image & Hi' & Ho).
    exists i, p, payload. split; [done|]. split; [congruence|done].
  - intros [= ->]. unfold image_data_list in Hfan.
    apply gather_raised in Hfan as (j & t & Hj & Ht & Hs).
    apply image_tasks_lookup in Ht as (q & Hq & ->).
    pose proof (image_outcome_failure w j q e Hs) as He.
    split; [by rewrite He|]. right. left. exists j, q.
    repeat split; try done. by rewrite He.
Qed.

Lemma generate_book_errors_witness :
  let e := mkHTTPException 500
             "Failed to generate the book. Error: paragraph text has invalid markup" in
  status_code e = 500
  /\ (e = key_error
      \/ (exists j q, j ∈ [1; 0]
                      /\ scene_prompts (mkBookRequest "Cuento" ["<b>uno"]) !! j = Some q
                      /\ image_outcome studio_world j q = inl e
                      /\ detail e = "Failed to generate image for prompt: " +:+ q)
      \/ (exists e',
            detail e = "Failed to generate the book. Error: " +:+ str e'
            /\ ((exists p, p ∈ ["<b>uno"]
                           /\ Paragraph studio_world p text_style = inl e')
                \/ (exists i p image,
                      scene_prompts (mkBookRequest "Cuento" ["<b>uno"]) !! i = Some p
                      /\ image_outcome studio_world i p = inr image
                      /\ ImageReader studio_world image = inl e')))).
Proof.
  apply (generate_book_errors (Some "sk-test") studio_world [1; 0]
           (mkBookRequest "Cuento" ["<b>uno"])).
  reflexivity.
Defined.

(** X7. With the key configured and every image call completing, the
    book operation always ends with a response or an error, and it
    returns a response exactly when every one of the N+1 calls answers
    with an image that reportlab reads and every paragraph is one that
    reportlab reads. *)
Theorem generate_book_returns_iff (api_key : option string) (w : World)
    (sched : list nat) (request : BookRequest) :
  not_configured api_key = false ->
  sched ≡ₚ seq 0 (S (length (paragraphs request))) ->
  snd (generate_book api_key w sched request) <> Pending
  /\ ((exists response, snd (generate_book api_key w sched request) = Returned response)
      <-> ((forall i p, scene_prompts request !! i = Some p ->
              exists image, image_outcome w i p = inr image /\ readable w image)
           /\ Forall (well_formed w) (paragraphs request))).
Proof.
  intros Hkey Hperm.
  assert (snd (image_data_list w sched request) <> Pending) as Hsettles.
  { unfold image_data_list. apply gather_settles. by rewrite image_tasks_length. }
  split; [|split].
  - rewrite generate_book_snd by done.
    destruct (snd (image_data_list w sched request)) as [images|e|]; try done.
    by destruct (create_pdf_book w (title request) (paragraphs request) images).
  - intros [response Hret].
    apply generate_book_returned_inv in Hret as (images & doc & _ & Hfan & Hdoc & _).
    apply image_data_list_sound in Hfan as [Hlen Himages].
    apply create_pdf_book_inr in Hdoc
      as (payload & rest & cover & flows & pictures & -> & Hcover & Hparse & Hdecode
          & Hle & _).
    simpl in Hlen. rewrite take_ge in Hdecode by lia.
    split.
    + intros i p Hp. destruct (Himages i p Hp) as (image & Hi & Ho).
      exists image. split; [done|].
      destruct i as [|i]; simpl in Hi.
      * injection Hi as <-. by exists cover.
      * destruct (Forall2_lookup_l _ _ _ _ _ Hdecode Hi) as (picture & _ & Hpic).
        by exists picture.
    + apply Forall_lookup. intros i p Hp.
      destruct (Forall2_lookup_l _ _ _ _ _ Hparse Hp) as (flow & _ & Hflow).
      by exists flow.
  - intros [Hall Hwf].
    destruct (answers_readable w request Hall) as (images & Hlen & Himages & Hread).
    rewrite generate_book_snd by done.
    rewrite (image_data_list_returns w request images sched Hlen Himages Hperm).
    destruct images as [|payload rest]; simpl in Hlen; [lia|].
    apply Forall_cons in Hread as [[cover Hcover] Hread].
    destruct (readable_decodes w rest Hread) as [pictures Hdecode].
    destruct (well_formed_parses w (paragraphs request) Hwf) as [flows Hparse].
    unfold create_pdf_book.
    rewrite (create_pdf_book_run_ok w (title request) (paragraphs request) payload rest
               cover flows pictures); [|done|done|by rewrite take_ge by lia|lia].
    by eexists.
Qed.

Lemma generate_book_returns_iff_witness :
  snd (generate_book (Some "sk-test") studio_world [2; 0; 1]
         (mkBookRequest "Cuento" ["uno"; "<b>dos"])) <> Pending
  /\ ((exists response,
         snd (generate_book (Some "sk-test") studio_world [2; 0; 1]
                (mkBookRequest "Cuento" ["uno"; "<b>dos"])) = Returned response)
      <-> ((forall i p,
              scene_prompts (mkBookRequest "Cuento" ["uno"; "<b>dos"]) !! i = Some p ->
              exists image, image_outcome studio_world i p = inr image
                            /\ readable studio_world image)
           /\ Forall (well_formed studio_world) ["uno"; "<b>dos"])).
Proof.
  apply (generate_book_returns_iff (Some "sk-test") studio_world [2; 0; 1]
           (mkBookRequest "Cuento" ["uno"; "<b>dos"])).
  - reflexivity.
  - simpl. solve_Permutation.
Defined.

(** X8. When several image calls fail, the error of the book operation
    is that of the failing call that completes first: if the calls
    completing before that of scene k answer and the call of scene k
    fails, the operation raises the error of scene k, whatever completes
    afterwards and whether or not the remaining calls complete at all. *)
Theorem generate_book_first_failure (api_key : option string) (w : World)
    (pre : list nat) (k : nat) (post : list nat) (request : BookRequest) (p : string) :
  not_configured api_key = false ->
  (forall j q, j ∈ pre -> scene_prompts request !! j = Some q ->
               exists image, image_outcome w j q = inr image) ->
  scene_prompts request !! k = Some p ->
  (exists e, image_outcome w k p = inl e) ->
  snd (generate_book api_key w (pre ++ k :: post) request)
    = Raised (mkHTTPException 500 ("Failed to generate image for prompt: " +:+ p)).
Proof.
  intros Hkey Hpre Hp [e He].
  rewrite generate_book_snd by done. unfold image_data_list.
  rewrite (gather_first_failure w (image_tasks w request) pre k post
             (generate_image_data w p) e).
  - by rewrite (image_outcome_failure w k p e He).
  - intros j tj Hj Htj. apply image_tasks_lookup in Htj as (q & Hq & ->).
    by apply Hpre.
  - unfold image_tasks. by rewrite map_lookup, Hp.
  - done.
Qed.

Lemma generate_book_first_failure_witness :
  snd (generate_book (Some "sk-test") (failing_worlds [1; 2]) ([0] ++ 2 :: [1])
         (mkBookRequest "Cuento" ["uno"; "dos"]))
    = Raised (mkHTTPException 500 ("Failed to generate image for prompt: " +:+ "dos")).
Proof.
  apply (generate_book_first_failure (Some "sk-test") (failing_worlds [1; 2])
           [0] 2 [1] (mkBookRequest "Cuento" ["uno"; "dos"]) "dos").
  - reflexivity.
  - intros j q Hj _. apply list_elem_of_singleton in Hj as ->.
    eexists. reflexivity.
  - reflexivity.
  - eexists. reflexivity.
Defined.

(** X11. The title reaches the cover page only: a request that differs
    from a successful one by its title alone makes the same calls and
    succeeds too, and the two documents are equal from the second page
    on. *)
Theorem title_only_on_cover (api_key : option string) (w : World) (sched : list nat)
    (title1 title2 : string) (story : list string) (response1 : StreamingResponse) :
  snd (generate_book api_key w sched (mkBookRequest title1 story)) = Returned response1 ->
  exists response2,
    snd (generate_book api_key w sched (mkBookRequest title2 story)) = Returned response2
    /\ drop 1 (body response1) = drop 1 (body response2)
    /\ fst (generate_book api_key w sched (mkBookRequest title1 story))
       = fst (generate_book api_key w sched (mkBookRequest title2 story)).
Proof.
  intros Hret.
  apply generate_book_returned_inv in Hret as (images & doc & Hkey & Hfan & Hdoc & ->).
  assert (image_data_list w sched (mkBookRequest title1 story)
          = image_data_list w sched (mkBookRequest title2 story)) as Hsame by done.
  assert (fst (generate_book api_key w sched (mkBookRequest title1 story))
          = fst (generate_book api_key w sched (mkBookRequest title2 story))) as Hcalls.
  { unfold generate_book. rewrite Hkey, Hsame.
    by destruct (image_data_list w sched (mkBookRequest title2 story)). }
  rewrite generate_book_snd by done. rewrite <- Hsame, Hfan.
  simpl in Hdoc |- *.
  apply create_pdf_book_inr in Hdoc
    as (payload & rest & cover & flows & pictures & -> & Hcover & Hparse & Hdecode
        & Hle & ->).
  unfold create_pdf_book.
  rewrite (create_pdf_book_run_ok w title2 story payload rest cover flows pictures)
    by done.
  eexists. split; [done|]. split; [|done].
  simpl. by rewrite !drop_0.
Qed.

Lemma title_only_on_cover_witness :
  exists response2,
    snd (generate_book (Some "sk-test") studio_world [1; 0]
           (mkBookRequest "Otro" ["uno"])) = Returned response2
    /\ drop 1 (body (pdf_response
                       [cover_page "Cuento" image_1; text_page "uno";
                        illustration_page image_1]))
       = drop 1 (body response2)
    /\ fst (generate_book (Some "sk-test") studio_world [1; 0]
              (mkBookRequest "Cuento" ["uno"]))
       = fst (generate_book (Some "sk-test") studio_world [1; 0]
                (mkBookRequest "Otro" ["uno"])).
Proof.
  apply (title_only_on_cover (Some "sk-test") studio_world [1; 0]
           "Cuento" "Otro" ["uno"]).
  reflexivity.
Defined.

Lemma image_calls_inj (w : World) (scenes1 : list string) : forall scenes2,
  map (fun t => ImagesGenerate (awaits t)) (map (generate_image_data w) scenes1)
  = map (fun t => ImagesGenerate (awaits t)) (map (generate_image_data w) scenes2) ->
  scenes1 = scenes2.
Proof.
  induction scenes1 as [|s1 l1 IH]; intros [|s2 l2] Heq; simpl in Heq; try done.
  injection Heq as Hprompt Hrest. f_equal; [|by apply IH].
  unfold full_prompt in Hprompt.
  repeat match type of Hprompt with
         | _ +:+ _ = _ => apply append_cancel in Hprompt
         end.
  done.
Qed.

(** X12. The paragraphs are carried whole into the image calls of a
    book: with the key configured, two requests whose paragraphs differ
    never make the same list of calls. *)
Theorem generate_book_calls_tell_paragraphs (api_key : option string) (w : World)
    (sched : list nat) (request1 request2 : BookRequest) :
  not_configured api_key = false ->
  paragraphs request1 <> paragraphs request2 ->
  fst (generate_book api_key w sched request1)
  <> fst (generate_book api_key w sched request2).
Proof.
  intros Hkey Hne Heq. apply Hne.
  unfold generate_book in Heq. rewrite Hkey in Heq.
  unfold image_data_list, gather, image_tasks, scene_prompts in Heq.
  cbn [fst] in Heq.
  apply image_calls_inj in Heq. simpl in Heq. by injection Heq.
Qed.

Lemma generate_book_calls_tell_paragraphs_witness :
  fst (generate_book (Some "sk-test") studio_world [0; 1] (mkBookRequest "Cuento" ["uno"]))
  <> fst (generate_book (Some "sk-test") studio_world [0; 1] (mkBookRequest "Cuento" ["dos"])).
Proof.
  apply (generate_book_calls_tell_paragraphs (Some "sk-test") studio_world [0; 1]
           (mkBookRequest "Cuento" ["uno"]) (mkBookRequest "Cuento" ["dos"])).
  - reflexivity.
  - discriminate.
Defined.
